(** * DynamoDbBundleServiceHelper: staging, rollback and read reconciliation

    A shallow embedding of [src/dataServices/dynamoDbBundleServiceHelper.ts]
    and the properties its specification states about it.

    Conventions of the embedding:
    - a JavaScript value that stands where the helper expects a version is a
      [Value]: [undefined], a [number], [NaN], an infinity, a string, or a
      member that a plain object inherits from [Object.prototype];
    - a [number] is an integer-valued double, written as the integer [Z] it
      is: sums and [parseInt] round to the nearest double, [toString] prints
      the shortest numeral that reads back as the same double (the integers
      of magnitude below 2^53 are doubles, and are printed digit by digit);
      [-0] and [0] are one number;
    - a string is a sequence of code units below 256;
    - the version mapping [idToVersionId] is a plain object: a finite map of
      its own properties, which are integers, read with [getProperty];
    - objects typed [any] in the source are records of the properties the
      helper reads, typed as the interfaces they flow into declare them, with
      the rest of the object kept as an opaque list of properties;
    - a call that may throw is a computation [Eff S A] over an explicit state
      [S], returning [Returned a] or [Thrown e] together with the state it
      leaves behind;
    - the wall clock and the identifier generator are part of the [World];
    - the response objects that the read reconciler mutates live in a [Heap],
      and the array it walks is a list of references into that heap. *)

From Stdlib Require Import ZArith Decimal DecimalString DecimalPos DecimalZ.
From Stdlib Require Import Ascii String.
From stdpp Require Import base option list gmap strings.

Local Open Scope string_scope.
Local Open Scope list_scope.
Local Open Scope Z_scope.

(** ** JavaScript values *)

Inductive Value :=
  | undefined
  | number (n : Z)
  | NaN
  | Infinity (negative : bool)
  | text (s : string)
  | inherited (member : string).

#[global] Instance Value_eq_dec : EqDecision Value.
Proof. solve_decision. Defined.

(** *** Numbers *)

(** The double nearest to an integer, ties going to the even significand of
    53 bits; an integer of magnitude below 2^53 is a double. The result may
    lie beyond the largest double, see [fromInteger]. *)
Definition nearestDouble (z : Z) : Z :=
  let a := Z.abs z in
  if a <? 2 ^ 53 then z
  else
    let e := Z.log2 a - 52 in
    let q := a / 2 ^ e in
    let r := a mod 2 ^ e in
    let half := 2 ^ (e - 1) in
    let q' :=
      if r <? half then q
      else if half <? r then q + 1
      else if Z.even q then q else q + 1 in
    Z.sgn z * (q' * 2 ^ e).

(** The number value of a mathematical integer: the nearest double, or an
    infinity from 2^1024 on. *)
Definition fromInteger (z : Z) : Value :=
  let d := nearestDouble z in
  if Z.abs d <? 2 ^ 1024 then number d else Infinity (z <? 0).

(** The decimal digits of an integer, with a minus sign for a negative
    one. *)
Definition decimal (n : Z) : string := NilZero.string_of_int (Z.to_int n).

(** The shortest numeral that reads back as the double [x > 0]: numerals of
    [k], [k + 1], ... significant digits are tried, for each length the two
    that enclose [x]; of two that both read back as [x] the nearer one is
    taken, and the one with the even last digit when they are as near. The
    numeral is returned as the integer it denotes; [digits] is the number of
    digits of [x]. *)
Fixpoint shortestFrom (fuel : nat) (x digits k : Z) : Z :=
  match fuel with
  | O => x
  | S fuel' =>
      let scale := 10 ^ (digits - k) in
      let low := x / scale * scale in
      let high := low + scale in
      match nearestDouble low =? x, nearestDouble high =? x with
      | true, true =>
          if x - low <? high - x then low
          else if high - x <? x - low then high
          else if Z.even (x / scale) then low else high
      | true, false => low
      | false, true => high
      | false, false => shortestFrom fuel' x digits (k + 1)
      end
  end.

Definition shortest (x : Z) : Z :=
  let digits := String.length (decimal x) in
  shortestFrom digits x (Z.of_nat digits) 1.

Fixpoint dropTrailingZeros (s : string) : string :=
  match s with
  | String c s' =>
      match dropTrailingZeros s' with
      | EmptyString =>
          if Ascii.eqb c "0" then EmptyString else String c EmptyString
      | significant => String c significant
      end
  | EmptyString => EmptyString
  end.

(** A numeral of up to 21 digits is printed in full, a longer one in
    exponent notation. *)
Definition render (v : Z) : string :=
  let numeral := decimal v in
  let n := String.length numeral in
  if (n <=? 21)%nat then numeral
  else
    match dropTrailingZeros numeral with
    | String c EmptyString => String c ("e+" ++ decimal (Z.of_nat n - 1))
    | String c fraction =>
        String c ("." ++ fraction ++ "e+" ++ decimal (Z.of_nat n - 1))
    | EmptyString => numeral
    end.

(** [Number.prototype.toString()] on an integer-valued number. Below 2^53 no
    shorter numeral reads back as the number, and its digits are printed. *)
Definition toString (n : Z) : string :=
  if Z.abs n <? 2 ^ 53 then decimal n
  else
    let numeral := render (shortest (Z.abs (nearestDouble n))) in
    if n <? 0 then "-" ++ numeral else numeral.

(** *** Strings *)

(** ECMAScript's [StrWhiteSpaceChar], as far as it lies below 256. *)
Definition isWhiteSpace (c : ascii) : bool :=
  let n := N_of_ascii c in
  ((9 <=? n) && (n <=? 13) || (n =? 32) || (n =? 160))%N.

Fixpoint trimStart (s : string) : string :=
  match s with
  | String c s' => if isWhiteSpace c then trimStart s' else s
  | EmptyString => s
  end.

Definition digitValue (c : ascii) : option Z :=
  let n := Z.of_N (N_of_ascii c) in
  if (48 <=? n) && (n <=? 57) then Some (n - 48) else None.

(** The longest prefix of decimal digits of [s], read most significant digit
    first; [acc] is [None] until a digit has been seen. *)
Fixpoint parseDigits (s : string) (acc : option Z) : option Z :=
  match s with
  | String c s' =>
      match digitValue c with
      | Some d => parseDigits s' (Some (10 * default 0 acc + d))
      | None => acc
      end
  | EmptyString => acc
  end.

(** The integer that [parseInt(s, 10)] reads: leading white space is
    skipped, one sign is accepted, then the longest prefix of digits is read;
    there is none when no digit follows. *)
Definition integerPrefix (s : string) : option Z :=
  match trimStart s with
  | String c s' =>
      if Ascii.eqb c "-" then Z.opp <$> parseDigits s' None
      else if Ascii.eqb c "+" then parseDigits s' None
      else parseDigits (String c s') None
  | EmptyString => None
  end.

(** [parseInt(s, 10)]: the number value of the integer read, [NaN] when
    there is none. *)
Definition parseInt (s : string) : Value :=
  match integerPrefix s with
  | Some mathInt => fromInteger mathInt
  | None => NaN
  end.

(** Truthiness of a string: only the empty string is falsy. *)
Definition truthy (s : string) : bool :=
  match s with
  | EmptyString => false
  | String _ _ => true
  end.

(** *** Plain objects *)

(** The properties every plain object inherits from [Object.prototype]. *)
Definition objectPrototypeMembers : list string :=
  [ "constructor"; "hasOwnProperty"; "isPrototypeOf"; "propertyIsEnumerable";
    "toLocaleString"; "toString"; "valueOf"; "__defineGetter__";
    "__defineSetter__"; "__lookupGetter__"; "__lookupSetter__"; "__proto__" ].

(** [object[key]] on a plain object whose own properties are numbers: the
    own property when there is one, else the inherited member of that name
    when there is one, else [undefined]. *)
Definition getProperty (object : gmap string Z) (key : string) : Value :=
  match object !! key with
  | Some n => number n
  | None =>
      if decide (key ∈ objectPrototypeMembers) then inherited key
      else undefined
  end.

(** The string an inherited member converts to: [__proto__] is the object
    [Object.prototype], every other member is a built-in function, whose
    text is given as V8 prints it; [constructor] is the function
    [Object]. *)
Definition primitiveOf (member : string) : string :=
  if String.eqb member "__proto__" then "[object Object]"
  else
    "function "
      ++ (if String.eqb member "constructor" then "Object" else member)
      ++ "() { [native code] }".

(** *** Operators *)

(** Truthiness of a value. *)
Definition isTruthy (v : Value) : bool :=
  match v with
  | undefined | NaN => false
  | number n => negb (n =? 0)
  | text s => truthy s
  | Infinity _ | inherited _ => true
  end.

(** [a || b] *)
Definition orElse (a b : Value) : Value := if isTruthy a then a else b.

(** [ToString] *)
Definition valueToString (v : Value) : string :=
  match v with
  | undefined => "undefined"
  | number n => toString n
  | NaN => "NaN"
  | Infinity negative => if negative then "-Infinity" else "Infinity"
  | text s => s
  | inherited member => primitiveOf member
  end.

(** [ToPrimitive]: an object converts to its string. *)
Definition toPrimitive (v : Value) : Value :=
  match v with
  | inherited member => text (primitiveOf member)
  | _ => v
  end.

(** The sum of two primitive values neither of which is a string;
    [undefined] counts as [NaN]. *)
Definition addNumbers (a b : Value) : Value :=
  match a, b with
  | number x, number y => fromInteger (x + y)
  | Infinity negative, number _ | number _, Infinity negative =>
      Infinity negative
  | Infinity negative, Infinity negative' =>
      if Bool.eqb negative negative' then Infinity negative else NaN
  | _, _ => NaN
  end.

(** [a + b]: concatenation when either operand converts to a string, the sum
    of two numbers otherwise. *)
Definition plus (a b : Value) : Value :=
  match toPrimitive a, toPrimitive b with
  | text s, q => text (s ++ valueToString q)
  | p, text s => text (valueToString p ++ s)
  | p, q => addNumbers p q
  end.

Arguments nearestDouble : simpl never.
Arguments fromInteger : simpl never.
Arguments toString : simpl never.
Arguments parseInt : simpl never.
Arguments getProperty : simpl never.
Arguments orElse : simpl never.
Arguments plus : simpl never.

(** Horner evaluation of a decimal numeral, most significant digit first. *)
Fixpoint uintValue (d : uint) (acc : Z) : Z :=
  match d with
  | Nil => acc
  | D0 l => uintValue l (10 * acc + 0)
  | D1 l => uintValue l (10 * acc + 1)
  | D2 l => uintValue l (10 * acc + 2)
  | D3 l => uintValue l (10 * acc + 3)
  | D4 l => uintValue l (10 * acc + 4)
  | D5 l => uintValue l (10 * acc + 5)
  | D6 l => uintValue l (10 * acc + 6)
  | D7 l => uintValue l (10 * acc + 7)
  | D8 l => uintValue l (10 * acc + 8)
  | D9 l => uintValue l (10 * acc + 9)
  end.

(** ** Exceptions and effects *)

Inductive Exception :=
  | TypeError
  | Error (message : string).

Inductive Outcome (A : Type) :=
  | Returned (a : A)
  | Thrown (e : Exception).
Arguments Returned {A} a.
Arguments Thrown {A} e.

(** A computation over a state [S]: it returns or throws, and leaves a state
    behind either way (what was mutated before a [throw] stays mutated). *)
Definition Eff (S A : Type) : Type := S -> Outcome A * S.

#[global] Instance Eff_ret {S} : MRet (Eff S) :=
  fun A a s => (Returned a, s).

#[global] Instance Eff_bind {S} : MBind (Eff S) :=
  fun A B f m s =>
    match m s with
    | (Returned a, s') => f a s'
    | (Thrown e, s') => (Thrown e, s')
    end.

Definition throw {S A} (e : Exception) : Eff S A := fun s => (Thrown e, s).

(** [requests.forEach(...)] over a body that updates the enclosing
    variables [acc]. *)
Fixpoint forEach {S A B} (body : B -> A -> Eff S B) (l : list A) (acc : B)
  : Eff S B :=
  match l with
  | [] => mret acc
  | x :: l' => acc' ← body acc x; forEach body l' acc'
  end.

(** The ambient state the staging generator reads: [new Date()] takes the
    next reading of the wall clock, [uuidv4()] the next fresh identifier. *)
Record World := {
  clock : nat -> string;
  clockReads : nat;
  uuids : nat -> string;
  uuidsDrawn : nat;
}.

(** [uuidv4()] *)
Definition uuidv4 : Eff World string := fun w =>
  (Returned (uuids w (uuidsDrawn w)),
   {| clock := clock w; clockReads := clockReads w;
      uuids := uuids w; uuidsDrawn := S (uuidsDrawn w) |}).

(** [new Date().toISOString()] *)
Definition nowISOString : Eff World string := fun w =>
  (Returned (clock w (clockReads w)),
   {| clock := clock w; clockReads := S (clockReads w);
      uuids := uuids w; uuidsDrawn := uuidsDrawn w |}).

(** ** Data model *)

(** [TypeOperation | SystemOperation] of fhir-works-on-aws-interface. *)
Inductive Operation :=
  | op_create | op_read | op_vread | op_update | op_delete | op_patch
  | op_history_type | op_history_instance | op_search_type
  | op_transaction | op_batch | op_search_system | op_history_system.

#[global] Instance Operation_eq_dec : EqDecision Operation.
Proof. solve_decision. Defined.

(** Modelled from the spec: [./documentStatus] is not part of the sources; the
    specification gives the status vocabulary as these four values. *)
Inductive DOCUMENT_STATUS := PENDING | LOCKED | PENDING_DELETE | DELETED.

(** The [meta] object of a resource: the two system-generated properties the
    helper reads, and the rest of it. *)
Record Meta := {
  versionId : string;
  lastUpdated : string;
  meta_other : list (string * string);
}.

(** A FHIR resource ([resource: any] in the source): the properties the helper
    reads, and the rest of the payload. *)
Record Resource := {
  res_id : string;
  res_resourceType : string;
  res_meta : option Meta;
  res_other : list (string * string);
}.

(** The [resource] property of a response: the literal [{}] or a resource. *)
Inductive Payload :=
  | emptyObject
  | resourceObject (r : Resource).

Record BatchReadWriteRequest := {
  req_operation : Operation;
  req_resourceType : string;
  req_id : string;
  req_resource : Resource;
}.

Record BatchReadWriteResponse := {
  resp_id : string;
  resp_vid : string;
  resp_operation : Operation;
  resp_lastModified : string;
  resp_resourceType : string;
  resp_resource : Payload;
}.

(** [ItemRequest]: the lock descriptor. [vid] and [isOriginalUpdateItem] are
    optional properties. *)
Record ItemRequest := {
  lock_id : string;
  lock_vid : Value;
  lock_resourceType : string;
  lock_operation : Operation;
  lock_isOriginalUpdateItem : option bool;
}.

(** ** Collaborators outside the sources *)

(** Modelled from the spec: [./dynamoDbUtil] is not part of the sources. The
    staged document is a versioned document: identifier, version number,
    optional tenant scope, lifecycle status, and the resource payload merged
    with updated metadata. *)
Record DdbItem := {
  item_id : string;
  item_vid : Value;
  item_documentStatus : DOCUMENT_STATUS;
  item_tenantId : option string;
  item_resourceType : string;
  item_meta : Meta;
  item_other : list (string * string);
}.

(** Modelled from the spec: [DynamoDbUtil.prepItemForDdbInsert] is not part of
    the sources. It forms the staged document for the given identifier,
    version and status; the updated metadata carries the version as a string
    and the time of staging as last-modified timestamp. *)
Definition prepItemForDdbInsert (resource : Resource) (id : string)
    (vid : Value) (documentStatus : DOCUMENT_STATUS)
    (tenantId : option string) : Eff World DdbItem :=
  timestamp ← nowISOString;
  mret {| item_id := id;
          item_vid := vid;
          item_documentStatus := documentStatus;
          item_tenantId := tenantId;
          item_resourceType := res_resourceType resource;
          item_meta :=
            {| versionId := valueToString vid;
               lastUpdated := timestamp;
               meta_other := from_option meta_other [] (res_meta resource) |};
          item_other := res_other resource |}.

(** Modelled from the spec: [DynamoDbUtil.cleanItem] is not part of the
    sources. It strips the internal-only fields of a stored document and
    leaves the resource payload. *)
Definition cleanItem (item : DdbItem) : Resource :=
  {| res_id := item_id item;
     res_resourceType := item_resourceType item;
     res_meta := Some (item_meta item);
     res_other := item_other item |}.

(** Modelled from the spec: the document codec [DynamoDBConverter] is not part
    of the sources. It serializes a value to the store's attribute
    representation and back; the representation is kept symbolic. *)
Inductive AttributeMap (A : Type) := marshall (a : A).
Arguments marshall {A} a.

Definition unmarshall {A} (m : AttributeMap A) : A :=
  match m with marshall a => a end.

(** Modelled from the spec: [buildHashKey] is not part of the sources. It
    combines a resource id and the tenant scope into a lookup key; the
    combination is kept symbolic. *)
Record HashKey := buildHashKey {
  hash_id : string;
  hash_tenantId : option string;
}.

(** Modelled from the spec: [RESOURCE_TABLE] is not part of the sources and
    the specification does not name the table; the constant only fills the
    [TableName] property of a request. *)
Definition RESOURCE_TABLE : string := "resource-table".

(** Modelled from the spec:
    [DynamoDbParamBuilder.buildUpdateDocumentStatusParam] is not part of the
    sources. The helper supplies the logical arguments of
    the conditional status transition, and the request is those arguments. *)
Record UpdateDocumentStatusParam := buildUpdateDocumentStatusParam {
  usp_oldStatus : DOCUMENT_STATUS;
  usp_newStatus : DOCUMENT_STATUS;
  usp_id : string;
  usp_vid : Value;
  usp_resourceType : string;
  usp_tenantId : option string;
}.

(** Modelled from the spec: [DynamoDbParamBuilder.buildDeleteParam] is not
    part of the sources. The helper supplies the logical arguments of the
    conditional delete, and the request is those arguments. *)
Record DeleteParam := buildDeleteParam {
  del_id : string;
  del_vid : Value;
  del_tenantId : option string;
}.

(** [{ Put: { TableName, Item } }] *)
Record PutRequest := {
  Put_TableName : string;
  Put_Item : AttributeMap DdbItem;
}.

(** The object [{ id, vid }] that keys a point read. *)
Record ItemKey := {
  key_id : HashKey;
  key_vid : Value;
}.

(** [{ Get: { TableName, Key } }] *)
Record GetRequest := {
  Get_TableName : string;
  Get_Key : AttributeMap ItemKey;
}.

(** ** generateStagingRequests *)

(** What [generateStagingRequests] returns; while the batch is walked the same
    record holds the six local arrays ([newBundleEntryResponses] is returned
    as [newStagingResponses]). *)
Record StagingRequests := {
  deleteRequests : list UpdateDocumentStatusParam;
  createRequests : list PutRequest;
  updateRequests : list PutRequest;
  readRequests : list GetRequest;
  newLocks : list ItemRequest;
  newStagingResponses : list BatchReadWriteResponse;
}.

Definition noStagingRequests : StagingRequests :=
  {| deleteRequests := []; createRequests := []; updateRequests := [];
     readRequests := []; newLocks := []; newStagingResponses := [] |}.

(** [resource.meta] followed by a property read: a [TypeError] when [meta] is
    undefined. *)
Definition metaOf {S} (resource : Resource) : Eff S Meta :=
  match res_meta resource with
  | Some meta => mret meta
  | None => throw TypeError
  end.

(** [vid.toString()]: a [TypeError] when [vid] is undefined; a number, a
    string and an inherited member each have a [toString] of their own, which
    gives the string the value converts to. *)
Definition vidToString {S} (vid : Value) : Eff S string :=
  match vid with
  | undefined => throw TypeError
  | _ => mret (valueToString vid)
  end.

Definition addStagingResponseAndItemsLocked {S} (operation : Operation)
    (resource : Resource) : Eff S (BatchReadWriteResponse * ItemRequest) :=
  meta ← metaOf resource;
  let stagingResponse :=
    {| resp_id := res_id resource;
       resp_vid := versionId meta;
       resp_operation := operation;
       resp_lastModified := lastUpdated meta;
       resp_resourceType := res_resourceType resource;
       resp_resource := resourceObject resource |} in
  let itemLocked :=
    {| lock_id := res_id resource;
       lock_vid := parseInt (versionId meta);
       lock_resourceType := res_resourceType resource;
       lock_operation := operation;
       lock_isOriginalUpdateItem :=
         if decide (operation = op_update) then Some false else None |} in
  mret (stagingResponse, itemLocked).

(** The body of [requests.forEach]: one request against the arrays built so
    far. *)
Definition stageRequest (idToVersionId : gmap string Z)
    (tenantId : option string) (acc : StagingRequests)
    (request : BatchReadWriteRequest) : Eff World StagingRequests :=
  match req_operation request with
  | op_create =>
      generated ← uuidv4;
      let id := if truthy (req_id request) then req_id request else generated in
      let vid := number 1 in
      Item ←
        prepItemForDdbInsert (req_resource request) id vid PENDING tenantId;
      let createRequests' :=
        createRequests acc ++
          [ {| Put_TableName := RESOURCE_TABLE;
               Put_Item := marshall Item |} ] in
      '(stagingResponse, itemLocked) ←
        addStagingResponseAndItemsLocked (req_operation request)
          {| res_id := id;
             res_resourceType := res_resourceType (req_resource request);
             res_meta := Some (item_meta Item);
             res_other := res_other (req_resource request) |};
      mret {| deleteRequests := deleteRequests acc;
              createRequests := createRequests';
              updateRequests := updateRequests acc;
              readRequests := readRequests acc;
              newLocks := newLocks acc ++ [itemLocked];
              newStagingResponses :=
                newStagingResponses acc ++ [stagingResponse] |}
  | op_update =>
      let id := res_id (req_resource request) in
      let vid :=
        plus (orElse (getProperty idToVersionId id) (number 0)) (number 1) in
      Item ←
        prepItemForDdbInsert (req_resource request) id vid PENDING tenantId;
      let updateRequests' :=
        updateRequests acc ++
          [ {| Put_TableName := RESOURCE_TABLE;
               Put_Item := marshall Item |} ] in
      '(stagingResponse, itemLocked) ←
        addStagingResponseAndItemsLocked (req_operation request)
          {| res_id := res_id (req_resource request);
             res_resourceType := res_resourceType (req_resource request);
             res_meta := Some (item_meta Item);
             res_other := res_other (req_resource request) |};
      mret {| deleteRequests := deleteRequests acc;
              createRequests := createRequests acc;
              updateRequests := updateRequests';
              readRequests := readRequests acc;
              newLocks := newLocks acc ++ [itemLocked];
              newStagingResponses :=
                newStagingResponses acc ++ [stagingResponse] |}
  | op_delete =>
      let id := req_id request in
      let resourceType := req_resourceType request in
      let vid := getProperty idToVersionId id in
      let deleteRequests' :=
        deleteRequests acc ++
          [ buildUpdateDocumentStatusParam LOCKED PENDING_DELETE id vid
              resourceType tenantId ] in
      vidString ← vidToString vid;
      lastModified ← nowISOString;
      mret {| deleteRequests := deleteRequests';
              createRequests := createRequests acc;
              updateRequests := updateRequests acc;
              readRequests := readRequests acc;
              newLocks := newLocks acc;
              newStagingResponses :=
                newStagingResponses acc ++
                  [ {| resp_id := id;
                       resp_vid := vidString;
                       resp_operation := req_operation request;
                       resp_lastModified := lastModified;
                       resp_resourceType := req_resourceType request;
                       resp_resource := emptyObject |} ] |}
  | op_read =>
      let id := req_id request in
      let vid := getProperty idToVersionId id in
      let readRequests' :=
        readRequests acc ++
          [ {| Get_TableName := RESOURCE_TABLE;
               Get_Key := marshall {| key_id := buildHashKey id tenantId;
                                      key_vid := vid |} |} ] in
      vidString ← vidToString vid;
      mret {| deleteRequests := deleteRequests acc;
              createRequests := createRequests acc;
              updateRequests := updateRequests acc;
              readRequests := readRequests';
              newLocks := newLocks acc;
              newStagingResponses :=
                newStagingResponses acc ++
                  [ {| resp_id := id;
                       resp_vid := vidString;
                       resp_operation := req_operation request;
                       resp_lastModified := "";
                       resp_resourceType := req_resourceType request;
                       resp_resource := emptyObject |} ] |}
  | _ => mret acc
  end.

Definition generateStagingRequests (requests : list BatchReadWriteRequest)
    (idToVersionId : gmap string Z) (tenantId : option string)
  : Eff World StagingRequests :=
  forEach (stageRequest idToVersionId tenantId) requests noStagingRequests.

(** ** generateRollbackRequests *)

(** [{ id, vid, resourceType }]: an entry of [itemsToRemoveFromLock]. *)
Record ItemToRemoveFromLock := {
  rel_id : string;
  rel_vid : string;
  rel_resourceType : string;
}.

Record RollbackRequests := {
  transactionRequests : list DeleteParam;
  itemsToRemoveFromLock : list ItemToRemoveFromLock;
}.

Definition generateDeleteLatestRecordAndItemToRemoveFromLock
    (resourceType id vid : string) (tenantId : option string)
  : DeleteParam * ItemToRemoveFromLock :=
  let transactionRequest := buildDeleteParam id (parseInt vid) tenantId in
  let itemToRemoveFromLock :=
    {| rel_id := id; rel_vid := vid; rel_resourceType := resourceType |} in
  (transactionRequest, itemToRemoveFromLock).

(** The body of [bundleEntryResponses.forEach] in the rollback generator. *)
Definition rollbackResponse (tenantId : option string) (acc : RollbackRequests)
    (stagingResponse : BatchReadWriteResponse) : RollbackRequests :=
  match resp_operation stagingResponse with
  | op_create | op_update =>
      let '(transactionRequest, itemToRemoveFromLock) :=
        generateDeleteLatestRecordAndItemToRemoveFromLock
          (resp_resourceType stagingResponse) (resp_id stagingResponse)
          (resp_vid stagingResponse) tenantId in
      {| transactionRequests := transactionRequests acc ++ [transactionRequest];
         itemsToRemoveFromLock :=
           itemsToRemoveFromLock acc ++ [itemToRemoveFromLock] |}
  | _ => acc
  end.

Definition generateRollbackRequests
    (bundleEntryResponses : list BatchReadWriteResponse)
    (tenantId : option string) : RollbackRequests :=
  fold_left (rollbackResponse tenantId) bundleEntryResponses
    {| transactionRequests := []; itemsToRemoveFromLock := [] |}.

(** ** populateBundleEntryResponseWithReadResult *)

(** The response objects are shared with the caller: the heap maps a reference
    to the object it denotes, and an array of responses is a list of
    references. *)
Abbreviation Heap := (gmap nat BatchReadWriteResponse).

(** An entry of [readResult.Responses]; [Item] is absent when the store found
    no row. *)
Record ItemResponse := {
  Item : option (AttributeMap DdbItem);
}.

Record TransactGetItemsOutput := {
  Responses : option (list ItemResponse);
}.

(** [readResult?.Responses[index]?.Item]: [undefined] when [readResult] is
    undefined, when the index is out of range or when the entry has no [Item];
    a [TypeError] when [Responses] is undefined. *)
Definition readItem {S} (readResult : option TransactGetItemsOutput)
    (index : nat) : Eff S (option (AttributeMap DdbItem)) :=
  match readResult with
  | None => mret None
  | Some output =>
      match Responses output with
      | None => throw TypeError
      | Some responses => mret (responses !! index ≫= Item)
      end
  end.

(** [bundleEntryResponses[i]] followed by a property read: a [TypeError] when
    there is no object there. *)
Definition entryAt (bundleEntryResponses : list nat) (i : nat)
  : Eff Heap (nat * BatchReadWriteResponse) := fun heap =>
  match bundleEntryResponses !! i with
  | Some ref =>
      match heap !! ref with
      | Some object => (Returned (ref, object), heap)
      | None => (Thrown TypeError, heap)
      end
  | None => (Thrown TypeError, heap)
  end.

(** [stagingResponse.resource = item] *)
Definition setResource (ref : nat) (item : Resource) : Eff Heap unit :=
  fun heap =>
    (Returned tt,
     alter (fun object =>
              {| resp_id := resp_id object;
                 resp_vid := resp_vid object;
                 resp_operation := resp_operation object;
                 resp_lastModified := resp_lastModified object;
                 resp_resourceType := resp_resourceType object;
                 resp_resource := resourceObject item |}) ref heap).

(** [stagingResponse.lastModified = value] *)
Definition setLastModified (ref : nat) (value : string) : Eff Heap unit :=
  fun heap =>
    (Returned tt,
     alter (fun object =>
              {| resp_id := resp_id object;
                 resp_vid := resp_vid object;
                 resp_operation := resp_operation object;
                 resp_lastModified := value;
                 resp_resourceType := resp_resourceType object;
                 resp_resource := resp_resource object |}) ref heap).

(** [item?.meta?.lastUpdated ? item.meta.lastUpdated : ''] *)
Definition lastUpdatedOrEmpty (item : Resource) : string :=
  match res_meta item with
  | Some meta => if truthy (lastUpdated meta) then lastUpdated meta else ""
  | None => ""
  end.

(** The [for] loop from position [i] on, [remaining] being
    [bundleEntryResponses.length - i]; [updatedStagingResponses] is the same
    array as [bundleEntryResponses], so one list stands for both. *)
Fixpoint populateFrom (readResult : option TransactGetItemsOutput)
    (remaining i index : nat) (updatedStagingResponses : list nat)
  : Eff Heap (list nat) :=
  match remaining with
  | O => mret updatedStagingResponses
  | S remaining' =>
      '(stagingResponse, object) ← entryAt updatedStagingResponses i;
      if decide (resp_operation object = op_read) then
        item ← readItem readResult index;
        match item with
        | None => throw (Error "Failed to fulfill all READ requests")
        | Some item =>
            let item := cleanItem (unmarshall item) in
            _ ← setResource stagingResponse item;
            _ ← setLastModified stagingResponse (lastUpdatedOrEmpty item);
            populateFrom readResult remaining' (S i) (S index)
              (<[i := stagingResponse]> updatedStagingResponses)
        end
      else
        populateFrom readResult remaining' (S i) index updatedStagingResponses
  end.

Definition populateBundleEntryResponseWithReadResult
    (bundleEntryResponses : list nat)
    (readResult : option TransactGetItemsOutput) : Eff Heap (list nat) :=
  populateFrom readResult (length bundleEntryResponses) 0 0
    bundleEntryResponses.

(** ** Vocabulary of the properties *)

(** The four operation kinds the staging generator recognizes. *)
Definition isRecognized (operation : Operation) : bool :=
  match operation with
  | op_create | op_update | op_delete | op_read => true
  | _ => false
  end.

(** The kinds that stage a new document version. *)
Definition stagesVersion (operation : Operation) : bool :=
  match operation with
  | op_create | op_update => true
  | _ => false
  end.

(** The kinds that look the current version up in the version mapping and
    convert it to a string. *)
Definition needsVersion (operation : Operation) : bool :=
  match operation with
  | op_delete | op_read => true
  | _ => false
  end.

(** Every [delete] and [read] of the batch names an identifier that the
    version mapping knows. *)
Definition versionsKnown (idToVersionId : gmap string Z)
    (requests : list BatchReadWriteRequest) : Prop :=
  Forall (fun request =>
            needsVersion (req_operation request) = true ->
            is_Some (idToVersionId !! req_id request)) requests.



(** The document a put request stages. *)
Definition stagedDocument (put : PutRequest) : DdbItem :=
  unmarshall (Put_Item put).



(** Two worlds in which the wall clock reads the same from now on. *)
Definition sameClock (w1 w2 : World) : Prop :=
  clock w1 = clock w2 /\ clockReads w1 = clockReads w2.

(** The [N]th raw result of a read, when there is one. *)
Definition rawResult (readResult : option TransactGetItemsOutput) (N : nat)
  : option (AttributeMap DdbItem) :=
  output ← readResult; responses ← Responses output;
  response ← responses !! N; Item response.

(** The number of entries of the raw-result sequence. *)
Definition rawResultCount (readResult : option TransactGetItemsOutput) : nat :=
  match readResult ≫= Responses with
  | Some responses => length responses
  | None => 0%nat
  end.

(** The reference denotes a response whose operation is [read]. *)
Definition isReadEntry (heap : Heap) (ref : nat) : Prop :=
  resp_operation <$> heap !! ref = Some op_read.

#[global] Instance isReadEntry_dec heap ref : Decision (isReadEntry heap ref).
Proof. unfold isReadEntry. apply _. Defined.

(** The read entries of a response sequence, in order. *)
Definition readEntries (heap : Heap) (responses : list nat) : list nat :=
  filter (isReadEntry heap) responses.

(** A response after reconciliation with a raw result: payload and
    last-modified timestamp replaced, every other property kept. *)
Definition reconciled (object : BatchReadWriteResponse)
    (raw : AttributeMap DdbItem) : BatchReadWriteResponse :=
  {| resp_id := resp_id object;
     resp_vid := resp_vid object;
     resp_operation := resp_operation object;
     resp_lastModified := lastUpdatedOrEmpty (cleanItem (unmarshall raw));
     resp_resourceType := resp_resourceType object;
     resp_resource := resourceObject (cleanItem (unmarshall raw)) |}.

(** The reconciliation the specification describes: the read entries, taken
    in order, receive the raw results number [index], [index + 1], ..., each
    written into the object the entry denotes; there is no outcome when a raw
    result is missing. *)
Fixpoint assignInOrder (readResult : option TransactGetItemsOutput)
    (index : nat) (reads : list nat) (heap : Heap) : option Heap :=
  match reads with
  | [] => Some heap
  | ref :: reads' =>
      raw ← rawResult readResult index;
      assignInOrder readResult (S index) reads'
        (alter (fun object => reconciled object raw) ref heap)
  end.

(** Two responses that differ at most in payload and last-modified
    timestamp. *)
Definition sameButPayload (object object' : BatchReadWriteResponse) : Prop :=
  resp_id object' = resp_id object /\
  resp_vid object' = resp_vid object /\
  resp_operation object' = resp_operation object /\
  resp_resourceType object' = resp_resourceType object.

(** The flag a lock descriptor carries for a request of the given kind: an
    update carries [isOriginalUpdateItem = false], any other kind carries no
    flag. *)
Definition flagFor (operation : Operation) : option bool :=
  if decide (operation = op_update) then Some false else None.

(** One iteration of the loop, by cases: what it reads, and how it goes
    on. *)
Inductive Iteration (readResult : option TransactGetItemsOutput)
    (n i index : nat) (responses : list nat) (heap : Heap)
  : Outcome (list nat) * Heap -> Prop :=
  | iteration_no_entry e :
      (responses !! i = None \/
       exists ref, responses !! i = Some ref /\ heap !! ref = None) ->
      Iteration readResult n i index responses heap (Thrown e, heap)
  | iteration_other ref object :
      responses !! i = Some ref -> heap !! ref = Some object ->
      resp_operation object <> op_read ->
      Iteration readResult n i index responses heap
        (populateFrom readResult n (S i) index responses heap)
  | iteration_unfulfilled ref object e :
      responses !! i = Some ref -> heap !! ref = Some object ->
      resp_operation object = op_read ->
      rawResult readResult index = None ->
      Iteration readResult n i index responses heap (Thrown e, heap)
  | iteration_read ref object raw :
      responses !! i = Some ref -> heap !! ref = Some object ->
      resp_operation object = op_read ->
      rawResult readResult index = Some raw ->
      Iteration readResult n i index responses heap
        (populateFrom readResult n (S i) (S index) responses
           (<[ref := reconciled object raw]> heap)).

(** ** Concrete inputs used by the examples below *)

Definition world0 : World :=
  {| clock := fun n => if decide (n = 0%nat) then "2021-03-01T10:00:00.000Z"
                       else "2021-03-01T10:00:00.001Z";
     clockReads := 0;
     uuids := fun _ => "8cafa46d-08b4-4ee4-b51b-803e20ae8126";
     uuidsDrawn := 0 |}.

(** The same inputs a moment later: only the wall clock differs. *)
Definition world1 : World :=
  {| clock := fun _ => "2021-03-01T10:00:05.000Z";
     clockReads := 0;
     uuids := uuids world0;
     uuidsDrawn := 0 |}.

(** The same clock, another state of the identifier generator. *)
Definition world2 : World :=
  {| clock := clock world0;
     clockReads := 0;
     uuids := fun _ => "00000000-0000-4000-8000-000000000000";
     uuidsDrawn := 7 |}.

Definition patient (id : string) : Resource :=
  {| res_id := id; res_resourceType := "Patient"; res_meta := None;
     res_other := [("gender", "female")] |}.

Definition requestFor (operation : Operation) (id : string)
  : BatchReadWriteRequest :=
  {| req_operation := operation; req_resourceType := "Patient";
     req_id := id; req_resource := patient id |}.

Definition responseFor (operation : Operation) (id vid : string)
  : BatchReadWriteResponse :=
  {| resp_id := id; resp_vid := vid; resp_operation := operation;
     resp_lastModified := ""; resp_resourceType := "Patient";
     resp_resource := emptyObject |}.

Definition storedPatient (id : string) (vid : Z) : DdbItem :=
  {| item_id := id; item_vid := number vid; item_documentStatus := LOCKED;
     item_tenantId := None; item_resourceType := "Patient";
     item_meta := {| versionId := toString vid;
                     lastUpdated := "2021-02-27T08:15:00.000Z";
                     meta_other := [] |};
     item_other := [("gender", "female")] |}.

(** A heap of four responses, as staged for a create, a read, a delete and
    another read, and the sequence that lists them. *)
Definition heap0 : Heap :=
  {[ 10%nat := responseFor op_create "c1" "1";
     11%nat := responseFor op_read "p1" "2";
     12%nat := responseFor op_delete "p2" "4";
     13%nat := responseFor op_read "p3" "1" ]}.

Definition responses0 : list nat := [10; 11; 12; 13]%nat.

(** Raw results for both reads, and for the first of them only. *)
Definition readResult0 : option TransactGetItemsOutput :=
  Some {| Responses :=
            Some [ {| Item := Some (marshall (storedPatient "p1" 2)) |};
                   {| Item := Some (marshall (storedPatient "p3" 1)) |} ] |}.

Definition readResult1 : option TransactGetItemsOutput :=
  Some {| Responses :=
            Some [ {| Item := Some (marshall (storedPatient "p1" 2)) |} ] |}.

(** ** Vocabulary of the further properties *)

(** Two results of the staging generator, bucket by bucket one after the
    other. *)
Definition appendStaging (a b : StagingRequests) : StagingRequests :=
  {| deleteRequests := deleteRequests a ++ deleteRequests b;
     createRequests := createRequests a ++ createRequests b;
     updateRequests := updateRequests a ++ updateRequests b;
     readRequests := readRequests a ++ readRequests b;
     newLocks := newLocks a ++ newLocks b;
     newStagingResponses := newStagingResponses a ++ newStagingResponses b |}.

(** The identifier of the [j]th create of a batch staged from the world [w]:
    the identifier the request supplies when it is not empty, and otherwise
    the identifier [uuidv4()] gave at its [j]th call. *)
Definition identifierOfCreate (w : World) (j : nat)
    (request : BatchReadWriteRequest) : string :=
  if truthy (req_id request) then req_id request
  else uuids w (uuidsDrawn w + j)%nat.

(** The response of a create or update agrees with the payload it carries
    and with the request it answers. *)
Definition answersStagedRequest (request : BatchReadWriteRequest)
    (response : BatchReadWriteResponse) : Prop :=
  exists payload meta,
    resp_resource response = resourceObject payload /\
    res_meta payload = Some meta /\
    res_id payload = resp_id response /\
    res_resourceType payload = resp_resourceType response /\
    versionId meta = resp_vid response /\
    lastUpdated meta = resp_lastModified response /\
    res_resourceType payload = res_resourceType (req_resource request) /\
    res_other payload = res_other (req_resource request) /\
    resp_operation response = req_operation request.

(** The objects a sequence of references denotes. *)
Definition objectsAt (heap : Heap) (responses : list nat)
  : list BatchReadWriteResponse :=
  omap (fun ref => heap !! ref) responses.

(** [readResult] is undefined or has its [Responses]. *)
Definition responsesPresent (readResult : option TransactGetItemsOutput)
  : Prop :=
  forall output, readResult = Some output -> is_Some (Responses output).

(** The message of the error the reconciler throws. *)
Definition unfulfilledRead : Exception :=
  Error "Failed to fulfill all READ requests".

(** The responses of a staging call as the caller holds them: the object
    number [i] at the reference [i], and the array that lists them. *)
Definition heapOf (responses : list BatchReadWriteResponse) : Heap :=
  map_seq 0 responses.

Definition referencesOf (responses : list BatchReadWriteResponse)
  : list nat :=
  seq 0 (length responses).

(** The number of read entries before position [i]. *)
Definition readsBefore (responses : list BatchReadWriteResponse) (i : nat)
  : nat :=
  length (filter (fun response => resp_operation response = op_read)
            (take i responses)).

(** ** Concrete inputs of the further examples *)

(** A world whose identifier generator never repeats itself. *)
Definition world3 : World :=
  {| clock := clock world0;
     clockReads := 0;
     uuids := fun n => decimal (Z.of_nat n);
     uuidsDrawn := 0 |}.

(** A read result that is there but has no [Responses]. *)
Definition readResult2 : option TransactGetItemsOutput :=
  Some {| Responses := None |}.

(** A batch of two creates around an update, and one of a create, a read and
    a delete. *)
Definition batch0 : list BatchReadWriteRequest :=
  [requestFor op_create ""; requestFor op_update "p1";
   requestFor op_create "c2"].

Definition batch1 : list BatchReadWriteRequest :=
  [requestFor op_create ""; requestFor op_read "p1";
   requestFor op_delete "p1"].

(** Deletes and reads of an identifier the mapping has and of the name of a
    member of [Object.prototype]. *)
Definition batch2 : list BatchReadWriteRequest :=
  [requestFor op_delete "p1"; requestFor op_read "valueOf";
   requestFor op_delete "constructor"; requestFor op_read "p1"].

(** * Properties *)

(** ** Numbers and strings *)

Lemma parseDigits_uint_some d acc :
  parseDigits (NilEmpty.string_of_uint d) (Some acc) = Some (uintValue d acc).
Proof.
  revert acc. induction d; intros acc; simpl; try reflexivity; apply IHd.
Qed.

Lemma parseDigits_uint_none d :
  d <> Nil ->
  parseDigits (NilEmpty.string_of_uint d) None = Some (uintValue d 0).
Proof.
  destruct d; intros Hd; try congruence; simpl; apply parseDigits_uint_some.
Qed.

Lemma uintValue_acc d acc :
  uintValue d (Z.pos acc) = Z.pos (Pos.of_uint_acc d acc).
Proof.
  revert acc. induction d; intros acc; simpl; try reflexivity;
    rewrite <- IHd; f_equal; lia.
Qed.

Lemma uintValue_of_uint d : uintValue d 0 = Z.of_N (Pos.of_uint d).
Proof.
  induction d; simpl; try reflexivity; try assumption;
    apply (uintValue_acc d).
Qed.

Lemma uintValue_to_uint p : uintValue (Pos.to_uint p) 0 = Z.pos p.
Proof. rewrite uintValue_of_uint, DecimalPos.Unsigned.of_to. reflexivity. Qed.

Lemma digits_first d :
  d <> Nil ->
  exists c s, NilEmpty.string_of_uint d = String c s /\
    trimStart (String c s) = String c s /\
    Ascii.eqb c "-" = false /\ Ascii.eqb c "+" = false.
Proof.
  destruct d; intros Hd; try congruence; simpl; eauto 10.
Qed.

Lemma string_of_uint_nonnil d :
  d <> Nil -> NilZero.string_of_uint d = NilEmpty.string_of_uint d.
Proof. destruct d; congruence || reflexivity. Qed.

(** Reading back the digits of an integer gives the integer. *)
Lemma integerPrefix_decimal (n : Z) : integerPrefix (decimal n) = Some n.
Proof.
  destruct n as [|p|p]; [reflexivity| |]; unfold decimal; simpl;
    pose proof (Unsigned.to_uint_nonnil p) as Hp;
    rewrite string_of_uint_nonnil by assumption.
  - destruct (digits_first _ Hp) as (c & s & Hs & Ht & Hm & Hpl).
    unfold integerPrefix. rewrite Hs, Ht, Hm, Hpl, <- Hs.
    rewrite parseDigits_uint_none by assumption.
    by rewrite uintValue_to_uint.
  - unfold integerPrefix. simpl.
    rewrite parseDigits_uint_none by assumption.
    by rewrite uintValue_to_uint.
Qed.

(** Up to 2^53 in magnitude an integer is its own double, and is printed
    digit by digit. *)
Lemma fromInteger_exact (n : Z) :
  - 2 ^ 53 <= n <= 2 ^ 53 -> fromInteger n = number n.
Proof.
  intros Hn. unfold fromInteger, nearestDouble.
  destruct (Z.ltb_spec (Z.abs n) (2 ^ 53)) as [Hlt|Hge].
  - destruct (Z.ltb_spec (Z.abs n) (2 ^ 1024)) as [_|Hbig]; [done|].
    assert (2 ^ 53 < 2 ^ 1024) by (apply Z.pow_lt_mono_r; lia). lia.
  - assert (n = 2 ^ 53 \/ n = - 2 ^ 53) as [-> | ->] by lia; reflexivity.
Qed.


(** Reading back the digits of an integer, or the string of a number, gives
    it back up to 2^53. *)
Lemma parseInt_decimal (n : Z) :
  - 2 ^ 53 <= n <= 2 ^ 53 -> parseInt (decimal n) = number n.
Proof.
  intros Hn. unfold parseInt.
  by rewrite integerPrefix_decimal, fromInteger_exact.
Qed.



(** What [object[key]] gives, by cases. *)
Lemma getProperty_own (object : gmap string Z) key n :
  object !! key = Some n -> getProperty object key = number n.
Proof. unfold getProperty. by intros ->. Qed.

Lemma getProperty_undefined (object : gmap string Z) key :
  getProperty object key = undefined <->
  object !! key = None /\ key ∉ objectPrototypeMembers.
Proof.
  unfold getProperty. destruct (object !! key) as [n|].
  - split; [discriminate|]. intros [Hnone _]. discriminate.
  - destruct (decide (key ∈ objectPrototypeMembers)) as [Hin|Hout].
    + split; [discriminate|]. intros [_ Hout]. contradiction.
    + split; [intros _; by split | reflexivity].
Qed.

Lemma getProperty_inherited (object : gmap string Z) key :
  object !! key = None -> key ∈ objectPrototypeMembers ->
  getProperty object key = inherited key.
Proof.
  unfold getProperty. intros -> Hin.
  by destruct (decide (key ∈ objectPrototypeMembers)).
Qed.

(** A value other than [undefined] has a [toString]. *)
Lemma vidToString_defined {S} (vid : Value) :
  vid <> undefined -> @vidToString S vid = mret (valueToString vid).
Proof. by destruct vid. Qed.

(** An inherited member converts to a string that is not a numeral, also
    with a digit appended. *)
Lemma parseInt_inherited member :
  member ∈ objectPrototypeMembers ->
  parseInt (primitiveOf member ++ "1") = NaN.
Proof.
  unfold objectPrototypeMembers. rewrite !elem_of_cons, elem_of_nil.
  intros Hin. repeat (destruct Hin as [-> | Hin]; [reflexivity|]). done.
Qed.

(** ** Lists and loops *)

Lemma forEach_cons {S A B} (body : B -> A -> Eff S B) x l acc s :
  forEach body (x :: l) acc s =
  match body acc x s with
  | (Returned acc', s') => forEach body l acc' s'
  | (Thrown e, s') => (Thrown e, s')
  end.
Proof. reflexivity. Qed.

Lemma filter_all {A} (P : A -> Prop) `{forall x, Decision (P x)} (l : list A) :
  Forall P l -> filter P l = l.
Proof.
  induction 1 as [|x l Hx Hl IH]; [done|].
  by rewrite filter_cons_True, IH.
Qed.

Lemma filter_snoc {A} (P : A -> Prop) `{forall x, Decision (P x)}
    (l : list A) x :
  filter P (l ++ [x]) = filter P l ++ (if decide (P x) then [x] else []).
Proof.
  by rewrite filter_app.
Qed.

Lemma Forall2_snoc {A B} (R : A -> B -> Prop) l k x y :
  Forall2 R l k -> R x y -> Forall2 R (l ++ [x]) (k ++ [y]).
Proof. intros Hl Hx. apply Forall2_app; [done|]. by repeat constructor. Qed.

(** ** The rollback generator *)

Lemma generateRollbackRequests_snoc responses response t :
  generateRollbackRequests (responses ++ [response]) t =
  rollbackResponse t (generateRollbackRequests responses t) response.
Proof. unfold generateRollbackRequests. by rewrite fold_left_app. Qed.

Lemma generateRollbackRequests_closed_form responses t :
  generateRollbackRequests responses t =
  {| transactionRequests :=
       map (fun response =>
              buildDeleteParam (resp_id response)
                (parseInt (resp_vid response)) t)
         (filter (fun response =>
                    stagesVersion (resp_operation response) = true)
            responses);
     itemsToRemoveFromLock :=
       map (fun response =>
              {| rel_id := resp_id response;
                 rel_vid := resp_vid response;
                 rel_resourceType := resp_resourceType response |})
         (filter (fun response =>
                    stagesVersion (resp_operation response) = true)
            responses) |}.
Proof.
  induction responses as [|response responses IH] using rev_ind; [done|].
  rewrite generateRollbackRequests_snoc, IH, filter_snoc, !map_app.
  unfold rollbackResponse.
  destruct (resp_operation response); simpl; by rewrite ?app_nil_r.
Qed.

(** C2 (as amended): for every response list, [generateRollbackRequests]
    emits, in order, one compensating delete and one lock-release descriptor
    for each entry whose operation is create or update, and nothing for an
    entry of any other operation, delete and read among them. The release
    holds the entry's identifier, version and resource type; the delete is
    built from the entry's identifier and from its version read as a number
    by [parseInt], which for a version string that is the decimal form of an
    integer V of magnitude at most 2^53 is V itself. *)
Theorem rollback_compensates_staged_versions responses t :
  transactionRequests (generateRollbackRequests responses t) =
    map (fun response =>
           buildDeleteParam (resp_id response) (parseInt (resp_vid response)) t)
      (filter (fun response => stagesVersion (resp_operation response) = true)
         responses) /\
  itemsToRemoveFromLock (generateRollbackRequests responses t) =
    map (fun response =>
           {| rel_id := resp_id response;
              rel_vid := resp_vid response;
              rel_resourceType := resp_resourceType response |})
      (filter (fun response => stagesVersion (resp_operation response) = true)
         responses) /\
  forall response V,
    response ∈ responses ->
    resp_operation response = op_create \/
    resp_operation response = op_update ->
    - 2 ^ 53 <= V <= 2 ^ 53 ->
    resp_vid response = decimal V ->
    buildDeleteParam (resp_id response) (number V) t
      ∈ transactionRequests (generateRollbackRequests responses t).
Proof.
  rewrite generateRollbackRequests_closed_form. simpl.
  split; [done|]. split; [done|].
  intros response V Hin Hkind HV Hvid.
  rewrite <- (parseInt_decimal V HV), <- Hvid.
  apply (list_elem_of_fmap_2
           (fun response =>
              buildDeleteParam (resp_id response)
                (parseInt (resp_vid response)) t)).
  apply list_elem_of_filter. split; [|exact Hin].
  by destruct Hkind as [-> | ->].
Qed.

(** Rolling back the responses of a create, a delete and an update. *)
Lemma rollback_compensates_staged_versions_witness :
  buildDeleteParam "p1" (number 3) (Some "tenant1")
    ∈ transactionRequests
        (generateRollbackRequests
           [responseFor op_create "c1" "1"; responseFor op_delete "p2" "4";
            responseFor op_update "p1" "3"] (Some "tenant1")).
Proof.
  apply (proj2 (proj2 (rollback_compensates_staged_versions
           [responseFor op_create "c1" "1"; responseFor op_delete "p2" "4";
            responseFor op_update "p1" "3"] (Some "tenant1")))
         (responseFor op_update "p1" "3") 3).
  - apply list_elem_of_In. simpl. right. right. left. reflexivity.
  - right. reflexivity.
  - lia.
  - reflexivity.
Defined.

(** C2 (as stated) fails: the compensating delete of an entry whose version
    is 9007199254740993, that is 2^53 + 1, carries the version
    9007199254740992: [parseInt] gives the nearest double. *)
Lemma rollback_compensates_staged_versions_counterexample :
  resp_vid (responseFor op_create "p1" "9007199254740993")
    = decimal (2 ^ 53 + 1) /\
  transactionRequests
    (generateRollbackRequests
       [responseFor op_create "p1" "9007199254740993"] None) =
    [buildDeleteParam "p1" (number (2 ^ 53)) None] /\
  ~ buildDeleteParam "p1" (number (2 ^ 53 + 1)) None
      ∈ transactionRequests
          (generateRollbackRequests
             [responseFor op_create "p1" "9007199254740993"] None).
Proof.
  split; [reflexivity|]. split; [reflexivity|].
  intros Hin. vm_compute in Hin.
  apply list_elem_of_singleton in Hin. discriminate.
Qed.

(** ** The staging generator *)

Ltac eff_unfold :=
  unfold mbind, Eff_bind, mret, Eff_ret, throw, metaOf, vidToString,
    addStagingResponseAndItemsLocked, prepItemForDdbInsert, uuidv4,
    nowISOString in *.

Ltac stage_cases H :=
  unfold stageRequest in H;
  match type of H with
  | context [req_operation ?request] =>
      let Hop := fresh "Hop" in
      destruct (req_operation request) eqn:Hop
  end;
  cbv zeta in H;
  try match type of H with
      | context [vidToString (getProperty ?m ?k)] =>
          let Hm := fresh "Hm" in
          destruct (decide (getProperty m k = undefined)) as [Hm|Hm];
          [rewrite Hm in H | rewrite (vidToString_defined _ Hm) in H]
      end;
  eff_unfold; simpl in H;
  try discriminate H;
  injection H as <- <-; simpl.

Section Staging.

Variable idToVersionId : gmap string Z.
Variable tenantId : option string.

(** *** One request at a time *)


(** [delete] and [read] are the only requests that throw, and only for an
    identifier at which the version mapping has no property. *)
Lemma stageRequest_returns acc request w :
  (needsVersion (req_operation request) = true ->
   is_Some (idToVersionId !! req_id request)) ->
  exists acc' w', stageRequest idToVersionId tenantId acc request w
    = (Returned acc', w').
Proof.
  intros Hknown. unfold stageRequest.
  destruct (req_operation request); eff_unfold; simpl; eauto;
    destruct Hknown as [v Hv]; try done;
    rewrite (getProperty_own _ _ _ Hv); simpl; eauto.
Qed.


(** Invariant rule for the walk over the batch: a property of the requests
    walked so far and the arrays built from them that holds at the start and
    is kept by every request that returns, holds of what is returned. *)
Lemma generateStagingRequests_invariant
    (I : list BatchReadWriteRequest -> StagingRequests -> Prop) :
  I [] noStagingRequests ->
  (forall walked acc request w acc' w',
      I walked acc ->
      stageRequest idToVersionId tenantId acc request w = (Returned acc', w') ->
      I (walked ++ [request]) acc') ->
  forall requests w st w',
    generateStagingRequests requests idToVersionId tenantId w
      = (Returned st, w') ->
    I requests st.
Proof.
  intros Hinit Hstep requests w st w'. unfold generateStagingRequests.
  change requests with ([] ++ requests) at 2.
  generalize (@nil BatchReadWriteRequest) noStagingRequests Hinit w.
  induction requests as [|request requests IH]; intros walked acc Hacc w0 Hrun.
  - simpl in Hrun. injection Hrun as <- <-. by rewrite app_nil_r.
  - rewrite forEach_cons in Hrun.
    destruct (stageRequest idToVersionId tenantId acc request w0)
      as [[acc'|e] w1] eqn:Hone; [|discriminate].
    rewrite cons_middle, (assoc_L (++)).
    eapply IH; [|exact Hrun]. eapply Hstep; eassumption.
Qed.

Lemma generateStagingRequests_returns requests w :
  versionsKnown idToVersionId requests ->
  exists st w', generateStagingRequests requests idToVersionId tenantId w
    = (Returned st, w').
Proof.
  unfold generateStagingRequests, versionsKnown.
  generalize noStagingRequests. revert w.
  induction requests as [|request requests IH]; intros w acc Hknown.
  - simpl. eauto.
  - apply Forall_cons in Hknown as [Hone Hrest].
    destruct (stageRequest_returns acc request w Hone) as (acc' & w' & Hstep).
    rewrite forEach_cons, Hstep. by apply IH.
Qed.


(** *** Order and cardinality of the responses *)

(** Every recognized request that returns adds one response, of its own
    operation kind, at the end; an unrecognized one adds none. *)
Lemma responses_follow_requests requests w st w' :
  generateStagingRequests requests idToVersionId tenantId w
    = (Returned st, w') ->
  map resp_operation (newStagingResponses st) =
  map req_operation
    (filter (fun request => isRecognized (req_operation request) = true)
       requests).
Proof.
  revert requests w st w'.
  apply (generateStagingRequests_invariant (fun walked acc =>
    map resp_operation (newStagingResponses acc) =
    map req_operation
      (filter (fun request => isRecognized (req_operation request) = true)
         walked))); [done|].
  intros walked acc request w acc' w' IH Hstep.
  rewrite filter_snoc, map_app.
  stage_cases Hstep; rewrite ?Hop; simpl;
    by rewrite ?map_app, ?app_nil_r, ?IH.
Qed.

(** C1 (as amended): for every batch whose operation kinds are all among
    create, update, delete and read, and whose delete and read requests all
    name an identifier present in the version mapping,
    [generateStagingRequests] returns; the response list it returns is as long
    as the batch, and the response at every position carries the operation
    kind of the request at that position. *)
Theorem staging_responses_aligned requests w :
  Forall (fun request => isRecognized (req_operation request) = true)
    requests ->
  versionsKnown idToVersionId requests ->
  exists st w',
    generateStagingRequests requests idToVersionId tenantId w
      = (Returned st, w') /\
    length (newStagingResponses st) = length requests /\
    forall i request,
      requests !! i = Some request ->
      exists response,
        newStagingResponses st !! i = Some response /\
        resp_operation response = req_operation request.
Proof.
  intros Hrecognized Hknown.
  destruct (generateStagingRequests_returns requests w Hknown)
    as (st & w' & Hrun).
  exists st, w'. split; [exact Hrun|].
  pose proof (responses_follow_requests _ _ _ _ Hrun) as Hmap.
  rewrite (filter_all _ _ Hrecognized) in Hmap.
  split.
  - by rewrite <- (length_map resp_operation), Hmap, length_map.
  - intros i request Hi.
    assert (map resp_operation (newStagingResponses st) !! i
            = Some (req_operation request)) as Hlook
      by (by rewrite Hmap, list_lookup_fmap, Hi).
    rewrite list_lookup_fmap in Hlook.
    destruct (newStagingResponses st !! i) as [response|]; [|discriminate].
    exists response. split; [done|]. simpl in Hlook. congruence.
Qed.

(** *** Lock descriptors *)

Lemma locks_follow_requests requests w st w' :
  generateStagingRequests requests idToVersionId tenantId w
    = (Returned st, w') ->
  Forall2 (fun request lock =>
             lock_operation lock = req_operation request /\
             lock_isOriginalUpdateItem lock = flagFor (req_operation request))
    (filter (fun request => stagesVersion (req_operation request) = true)
       requests)
    (newLocks st).
Proof.
  revert requests w st w'.
  apply (generateStagingRequests_invariant (fun walked acc =>
    Forall2 (fun request lock =>
             lock_operation lock = req_operation request /\
             lock_isOriginalUpdateItem lock = flagFor (req_operation request))
      (filter (fun request => stagesVersion (req_operation request) = true)
         walked)
      (newLocks acc))); [constructor|].
  intros walked acc request w acc' w' IH Hstep.
  rewrite filter_snoc.
  stage_cases Hstep; rewrite ?Hop; simpl; rewrite ?app_nil_r; try done;
    (apply Forall2_app; [done|]); repeat constructor; by rewrite Hop.
Qed.

(** C4 (as amended): for every batch whose delete and read requests all name
    an identifier present in the version mapping, [generateStagingRequests]
    returns, and the lock descriptors it returns are, in order, one for each
    create or update request and none for any other request; the descriptor
    of an update carries [isOriginalUpdateItem = false] and the descriptor of
    a create carries no such flag. *)
Theorem staging_locks_per_staged_version requests w :
  versionsKnown idToVersionId requests ->
  exists st w',
    generateStagingRequests requests idToVersionId tenantId w
      = (Returned st, w') /\
    length (newLocks st) =
      length (filter (fun request =>
                        stagesVersion (req_operation request) = true)
                requests) /\
    Forall2 (fun request lock =>
               lock_operation lock = req_operation request /\
               (req_operation request = op_update ->
                lock_isOriginalUpdateItem lock = Some false) /\
               (req_operation request = op_create ->
                lock_isOriginalUpdateItem lock = None))
      (filter (fun request => stagesVersion (req_operation request) = true)
         requests)
      (newLocks st).
Proof.
  intros Hknown.
  destruct (generateStagingRequests_returns requests w Hknown)
    as (st & w' & Hrun).
  exists st, w'. split; [exact Hrun|].
  pose proof (locks_follow_requests _ _ _ _ Hrun) as Hlocks.
  split; [symmetry; exact (Forall2_length _ _ _ Hlocks)|].
  eapply Forall2_impl; [exact Hlocks|].
  intros request lock [Hop Hflag]. unfold flagFor in Hflag.
  repeat split; [done| |]; intros Hkind; rewrite Hkind in Hflag; done.
Qed.

(** *** Version assignment *)





(** *** Staged locks and their release *)


(** *** An update of an identifier the version mapping does not have *)

(** C10, and where the code departs from it: an update request whose
    identifier is absent from the version mapping does not make
    [generateStagingRequests] fail. When the identifier is not the name of a
    member of [Object.prototype], the missing current version counts as 0:
    the document is staged at version 1 and the call returns its put request,
    its lock descriptor and its response, exactly as it does when the mapping
    maps the identifier (to 0). When it is such a name, [idToVersionId[id]]
    finds the inherited member, [(member || 0) + 1] is a concatenation of
    strings, the document is staged with that string as its version, and the
    version of the lock descriptor is [NaN]. *)
Theorem update_of_unknown_identifier request w :
  req_operation request = op_update ->
  idToVersionId !! res_id (req_resource request) = None ->
  (res_id (req_resource request) ∉ objectPrototypeMembers ->
   exists item w',
     prepItemForDdbInsert (req_resource request)
       (res_id (req_resource request)) (number 1) PENDING tenantId w
         = (Returned item, w') /\
     item_vid item = number 1 /\
     generateStagingRequests [request] idToVersionId tenantId w =
       (Returned
          {| deleteRequests := [];
             createRequests := [];
             updateRequests :=
               [ {| Put_TableName := RESOURCE_TABLE;
                    Put_Item := marshall item |} ];
             readRequests := [];
             newLocks :=
               [ {| lock_id := res_id (req_resource request);
                    lock_vid := number 1;
                    lock_resourceType :=
                      res_resourceType (req_resource request);
                    lock_operation := op_update;
                    lock_isOriginalUpdateItem := Some false |} ];
             newStagingResponses :=
               [ {| resp_id := res_id (req_resource request);
                    resp_vid := "1";
                    resp_operation := op_update;
                    resp_lastModified := lastUpdated (item_meta item);
                    resp_resourceType :=
                      res_resourceType (req_resource request);
                    resp_resource :=
                      resourceObject
                        {| res_id := res_id (req_resource request);
                           res_resourceType :=
                             res_resourceType (req_resource request);
                           res_meta := Some (item_meta item);
                           res_other := res_other (req_resource request) |}
                 |} ]
          |}, w') /\
     forall acc,
       stageRequest idToVersionId tenantId acc request w =
       stageRequest (<[res_id (req_resource request) := 0]> idToVersionId)
         tenantId acc request w) /\
  (res_id (req_resource request) ∈ objectPrototypeMembers ->
   exists st w',
     generateStagingRequests [request] idToVersionId tenantId w
       = (Returned st, w') /\
     map (fun put => item_vid (stagedDocument put)) (updateRequests st) =
       [text (primitiveOf (res_id (req_resource request)) ++ "1")%string] /\
     map lock_vid (newLocks st) = [NaN] /\
     map resp_vid (newStagingResponses st) =
       [(primitiveOf (res_id (req_resource request)) ++ "1")%string]).
Proof.
  intros Hop Hnone. split.
  - intros Hout.
    assert (getProperty idToVersionId (res_id (req_resource request))
            = undefined) as Hget
      by (by apply getProperty_undefined).
    eexists _, _. split; [reflexivity|]. split; [reflexivity|]. split.
    + unfold generateStagingRequests. rewrite forEach_cons.
      unfold stageRequest. rewrite Hop, Hget. reflexivity.
    + intros acc. unfold stageRequest.
      rewrite Hop, Hget, (getProperty_own _ _ 0); [reflexivity|].
      apply lookup_insert_eq.
  - intros Hin. eexists _, _.
    unfold generateStagingRequests. rewrite forEach_cons.
    unfold stageRequest.
    rewrite Hop, (getProperty_inherited _ _ Hnone Hin).
    split; [reflexivity|]. simpl.
    split; [reflexivity|]. split; [|reflexivity].
    f_equal. by apply parseInt_inherited.
Qed.

(** *** A delete or read of an identifier the version mapping does not have *)


(** *** Determinism *)

Lemma stageRequest_sameClock acc request w1 w2 :
  sameClock w1 w2 ->
  (req_operation request = op_create -> req_id request <> "") ->
  fst (stageRequest idToVersionId tenantId acc request w1)
    = fst (stageRequest idToVersionId tenantId acc request w2) /\
  sameClock (snd (stageRequest idToVersionId tenantId acc request w1))
            (snd (stageRequest idToVersionId tenantId acc request w2)).
Proof.
  intros [Hclock Hreads] Hid. unfold stageRequest, sameClock.
  destruct (req_operation request) eqn:Hop; eff_unfold; simpl;
    try (destruct (getProperty idToVersionId (req_id request)); simpl);
    rewrite ?Hclock, ?Hreads; try done.
  all: destruct (req_id request) as [|char rest]; [by destruct Hid|done].
Qed.

(** C7 (as amended): two invocations of [generateStagingRequests] with the
    same batch, in which every create carries a pre-supplied (non-empty)
    identifier, the same version mapping and the same tenant scope, and
    during which the wall clock gives the same readings, have the same
    outcome: the same write requests, read requests, lock descriptors and
    responses, whatever the state of the identifier generator. *)
Theorem staging_deterministic_given_clock requests w1 w2 :
  Forall (fun request =>
            req_operation request = op_create -> req_id request <> "")
    requests ->
  sameClock w1 w2 ->
  fst (generateStagingRequests requests idToVersionId tenantId w1) =
  fst (generateStagingRequests requests idToVersionId tenantId w2).
Proof.
  unfold generateStagingRequests. generalize noStagingRequests.
  revert w1 w2.
  induction requests as [|request requests IH]; intros w1 w2 acc Hids Hsame;
    [done|].
  apply Forall_cons in Hids as [Hid Hids].
  rewrite !forEach_cons.
  destruct (stageRequest_sameClock acc request w1 w2 Hsame Hid)
    as [Hfst Hsnd].
  destruct (stageRequest idToVersionId tenantId acc request w1)
             as [[acc1|e1] w1'],
           (stageRequest idToVersionId tenantId acc request w2)
             as [[acc2|e2] w2'];
    simpl in Hfst, Hsnd; try discriminate; [|exact Hfst].
  injection Hfst as ->. by apply IH.
Qed.

End Staging.

(** *** Concrete batches *)

(** A batch of one create and one update request. *)
Lemma staging_responses_aligned_witness :
  exists st w',
    generateStagingRequests
      [requestFor op_create "c1"; requestFor op_update "p1"]
      {[ "p1" := 2 ]} None world0 = (Returned st, w') /\
    length (newStagingResponses st) = 2%nat /\
    forall i request,
      [requestFor op_create "c1"; requestFor op_update "p1"] !! i
        = Some request ->
      exists response,
        newStagingResponses st !! i = Some response /\
        resp_operation response = req_operation request.
Proof.
  apply (staging_responses_aligned {[ "p1" := 2 ]} None
           [requestFor op_create "c1"; requestFor op_update "p1"]).
  - repeat (apply Forall_cons_2 || apply Forall_nil_2); reflexivity.
  - unfold versionsKnown.
    repeat (apply Forall_cons_2 || apply Forall_nil_2); simpl;
      intros Hneeds; discriminate Hneeds.
Defined.

(** C1 (as stated) fails: a batch of one delete request, a recognized kind,
    whose identifier the version mapping does not know, makes
    [generateStagingRequests] throw a [TypeError] at [vid.toString()], so no
    response list is returned. *)
Lemma staging_responses_aligned_counterexample :
  Forall (fun request => isRecognized (req_operation request) = true)
    [requestFor op_delete "p9"] /\
  fst (generateStagingRequests [requestFor op_delete "p9"] ∅ None world0)
    = Thrown TypeError /\
  ~ exists st w',
      generateStagingRequests [requestFor op_delete "p9"] ∅ None world0
        = (Returned st, w') /\
      length (newStagingResponses st) = length [requestFor op_delete "p9"].
Proof.
  split; [repeat constructor|]. split; [reflexivity|].
  intros (st & w' & Hrun & _). vm_compute in Hrun. discriminate.
Qed.

(** A batch of a create, an update, a delete and a read. *)
Lemma staging_locks_per_staged_version_witness :
  exists st w',
    generateStagingRequests
      [requestFor op_create ""; requestFor op_update "p1";
       requestFor op_delete "p1"; requestFor op_read "p1"]
      {[ "p1" := 2 ]} None world0 = (Returned st, w') /\
    length (newLocks st) = 2%nat /\
    Forall2 (fun request lock =>
               lock_operation lock = req_operation request /\
               (req_operation request = op_update ->
                lock_isOriginalUpdateItem lock = Some false) /\
               (req_operation request = op_create ->
                lock_isOriginalUpdateItem lock = None))
      [requestFor op_create ""; requestFor op_update "p1"]
      (newLocks st).
Proof.
  apply (staging_locks_per_staged_version {[ "p1" := 2 ]} None
           [requestFor op_create ""; requestFor op_update "p1";
            requestFor op_delete "p1"; requestFor op_read "p1"]).
  unfold versionsKnown.
  repeat (apply Forall_cons_2 || apply Forall_nil_2); simpl;
    intros Hneeds; try discriminate Hneeds; exists 2; reflexivity.
Defined.

(** C4 (as stated) fails: in a batch of a create followed by a delete whose
    identifier the version mapping does not know, the call throws, and no
    lock descriptor is returned for the create. *)
Lemma staging_locks_per_staged_version_counterexample :
  fst (generateStagingRequests
         [requestFor op_create "c1"; requestFor op_delete "p9"] ∅ None world0)
    = Thrown TypeError /\
  ~ exists st w',
      generateStagingRequests
        [requestFor op_create "c1"; requestFor op_delete "p9"] ∅ None world0
        = (Returned st, w') /\
      length (newLocks st) = 1%nat.
Proof.
  split; [reflexivity|].
  intros (st & w' & Hrun & _). vm_compute in Hrun. discriminate.
Qed.




(** An update of the identifier [p7], which the mapping does not have, is
    staged at version 1; an update of the identifier [constructor], which it
    does not have either, is staged with the text of the function [Object]
    followed by [1] as its version. *)
Lemma update_of_unknown_identifier_witness :
  (exists item w',
     item_vid item = number 1 /\
     generateStagingRequests [requestFor op_update "p7"] {[ "p1" := 2 ]}
       None world0 =
       (Returned
          {| deleteRequests := [];
             createRequests := [];
             updateRequests :=
               [ {| Put_TableName := RESOURCE_TABLE;
                    Put_Item := marshall item |} ];
             readRequests := [];
             newLocks :=
               [ {| lock_id := "p7";
                    lock_vid := number 1;
                    lock_resourceType := "Patient";
                    lock_operation := op_update;
                    lock_isOriginalUpdateItem := Some false |} ];
             newStagingResponses :=
               [ {| resp_id := "p7";
                    resp_vid := "1";
                    resp_operation := op_update;
                    resp_lastModified := lastUpdated (item_meta item);
                    resp_resourceType := "Patient";
                    resp_resource :=
                      resourceObject
                        {| res_id := "p7";
                           res_resourceType := "Patient";
                           res_meta := Some (item_meta item);
                           res_other := res_other (patient "p7") |} |} ]
          |}, w')) /\
  (exists st w',
     generateStagingRequests [requestFor op_update "constructor"] ∅ None
       world0 = (Returned st, w') /\
     map (fun put => item_vid (stagedDocument put)) (updateRequests st) =
       [text "function Object() { [native code] }1"] /\
     map lock_vid (newLocks st) = [NaN] /\
     map resp_vid (newStagingResponses st) =
       ["function Object() { [native code] }1"]).
Proof.
  split.
  - destruct (update_of_unknown_identifier {[ "p1" := 2 ]} None
                (requestFor op_update "p7") world0)
      as [Hfirst _]; [reflexivity|reflexivity|].
    destruct Hfirst as (item & w' & _ & Hvid & Hrun & _).
    + apply (bool_decide_unpack _). vm_compute. exact I.
    + exists item, w'. split; [exact Hvid|exact Hrun].
  - destruct (update_of_unknown_identifier ∅ None
                (requestFor op_update "constructor") world0)
      as [_ Hsecond]; [reflexivity|reflexivity|].
    apply Hsecond. apply (bool_decide_unpack _). vm_compute. exact I.
Defined.


(** The same clock, two states of the identifier generator. *)
Lemma staging_deterministic_given_clock_witness :
  fst (generateStagingRequests
         [requestFor op_create "c1"; requestFor op_delete "p1"]
         {[ "p1" := 3 ]} None world0) =
  fst (generateStagingRequests
         [requestFor op_create "c1"; requestFor op_delete "p1"]
         {[ "p1" := 3 ]} None world2).
Proof.
  apply staging_deterministic_given_clock.
  - repeat (apply Forall_cons_2 || apply Forall_nil_2); simpl;
      intros _; discriminate.
  - split; reflexivity.
Defined.

(** C7 (as stated) fails: the response of a delete is stamped with
    [new Date().toISOString()], so the same batch, version mapping and tenant
    scope give different responses when the wall clock reads differently. *)
Lemma staging_deterministic_given_clock_counterexample :
  Forall (fun request =>
            req_operation request = op_create -> req_id request <> "")
    [requestFor op_delete "p1"] /\
  map resp_lastModified
    (match fst (generateStagingRequests [requestFor op_delete "p1"]
                  {[ "p1" := 3 ]} None world0) with
     | Returned st => newStagingResponses st
     | Thrown _ => []
     end) = ["2021-03-01T10:00:00.000Z"] /\
  map resp_lastModified
    (match fst (generateStagingRequests [requestFor op_delete "p1"]
                  {[ "p1" := 3 ]} None world1) with
     | Returned st => newStagingResponses st
     | Thrown _ => []
     end) = ["2021-03-01T10:00:05.000Z"] /\
  fst (generateStagingRequests [requestFor op_delete "p1"]
         {[ "p1" := 3 ]} None world0) <>
  fst (generateStagingRequests [requestFor op_delete "p1"]
         {[ "p1" := 3 ]} None world1).
Proof.
  split; [|split; [|split]].
  - repeat (apply Forall_cons_2 || apply Forall_nil_2); simpl; discriminate.
  - reflexivity.
  - reflexivity.
  - intros Heq. vm_compute in Heq. discriminate.
Qed.

(** ** The read reconciler *)

(** The two property writes of one iteration, seen from the heap. *)
Lemma set_resource_lastModified ref object raw (heap : Heap) :
  heap !! ref = Some object ->
  snd (setLastModified ref (lastUpdatedOrEmpty (cleanItem (unmarshall raw)))
         (snd (setResource ref (cleanItem (unmarshall raw)) heap))) =
  <[ref := reconciled object raw]> heap.
Proof.
  intros Href. unfold setLastModified, setResource. simpl.
  apply map_eq. intros ref'. destruct (decide (ref = ref')) as [<-|Hne].
  - by rewrite lookup_insert_eq, !lookup_alter_eq, Href.
  - by rewrite lookup_insert_ne, !lookup_alter_ne.
Qed.

Lemma alter_reconciled (heap : Heap) ref object raw :
  heap !! ref = Some object ->
  alter (fun object => reconciled object raw) ref heap =
  <[ref := reconciled object raw]> heap.
Proof.
  intros Href. apply map_eq. intros ref'.
  destruct (decide (ref = ref')) as [<-|Hne].
  - by rewrite lookup_insert_eq, lookup_alter_eq, Href.
  - by rewrite lookup_insert_ne, lookup_alter_ne.
Qed.

Lemma readItem_rawResult {S} readResult index (s : S) :
  readItem readResult index s = (Returned (rawResult readResult index), s) \/
  (readItem readResult index s = (Thrown TypeError, s) /\
   rawResultCount readResult = 0%nat).
Proof.
  unfold readItem, rawResult, rawResultCount.
  destruct readResult as [[[responses|]]|]; simpl; eauto.
Qed.

Lemma rawResult_in_range readResult index raw :
  rawResult readResult index = Some raw ->
  (index < rawResultCount readResult)%nat.
Proof.
  unfold rawResult, rawResultCount.
  destruct readResult as [[[responses|]]|]; simpl; try discriminate.
  destruct (responses !! index) eqn:Hl; simpl; [|discriminate].
  intros _. by eapply lookup_lt_Some.
Qed.

Lemma readEntries_insert (heap : Heap) ref object object' refs :
  heap !! ref = Some object ->
  resp_operation object' = resp_operation object ->
  readEntries (<[ref := object']> heap) refs = readEntries heap refs.
Proof.
  intros Href Hop. unfold readEntries. apply list_filter_iff.
  intros ref'. unfold isReadEntry.
  destruct (decide (ref = ref')) as [<-|Hne].
  - by rewrite lookup_insert_eq, Href; simpl; rewrite Hop.
  - by rewrite lookup_insert_ne.
Qed.

Lemma readEntries_cons_read (heap : Heap) ref object refs :
  heap !! ref = Some object ->
  resp_operation object = op_read ->
  readEntries heap (ref :: refs) = ref :: readEntries heap refs.
Proof.
  intros Href Hop. unfold readEntries. rewrite filter_cons_True; [done|].
  unfold isReadEntry. by rewrite Href; simpl; rewrite Hop.
Qed.

Lemma readEntries_cons_other (heap : Heap) ref object refs :
  heap !! ref = Some object ->
  resp_operation object <> op_read ->
  readEntries heap (ref :: refs) = readEntries heap refs.
Proof.
  intros Href Hop. unfold readEntries. rewrite filter_cons_False; [done|].
  unfold isReadEntry. rewrite Href; simpl. congruence.
Qed.

Lemma visited_cons (responses : list nat) n i ref :
  responses !! i = Some ref ->
  take (S n) (drop i responses) = ref :: take n (drop (S i) responses).
Proof. intros Hi. by rewrite (drop_S _ _ _ Hi). Qed.

Lemma sameButPayload_refl object : sameButPayload object object.
Proof. by repeat split. Qed.

Lemma sameButPayload_reconciled object raw :
  sameButPayload object (reconciled object raw).
Proof. by repeat split. Qed.

Lemma sameButPayload_trans o1 o2 o3 :
  sameButPayload o1 o2 -> sameButPayload o2 o3 -> sameButPayload o1 o3.
Proof.
  intros (? & ? & ? & ?) (? & ? & ? & ?). repeat split; congruence.
Qed.

Lemma visited_all (responses : list nat) :
  take (length responses) (drop 0 responses) = responses.
Proof. by rewrite drop_0, firstn_all. Qed.

Section Reconciler.

Variable readResult : option TransactGetItemsOutput.

(** Every iteration of the loop is one of the four cases of [Iteration]. *)
Lemma populateFrom_iteration n i index responses heap :
  Iteration readResult n i index responses heap
    (populateFrom readResult (S n) i index responses heap).
Proof.
  simpl. unfold mbind, Eff_bind, entryAt.
  destruct (responses !! i) as [ref|] eqn:Hi;
    [|apply iteration_no_entry; by left].
  destruct (heap !! ref) as [object|] eqn:Href;
    [|apply iteration_no_entry; right; by exists ref].
  destruct (decide (resp_operation object = op_read)) as [Hop|Hop];
    [|by eapply iteration_other].
  destruct (readItem_rawResult readResult index heap) as [-> | [-> Hcount]].
  - destruct (rawResult readResult index) as [raw|] eqn:Hraw.
    + unfold mret, Eff_ret. simpl.
      pose proof (set_resource_lastModified ref object raw heap Href) as Hset.
      unfold setLastModified, setResource in *. simpl in Hset. rewrite Hset.
      rewrite list_insert_id by done.
      by eapply iteration_read.
    + by eapply iteration_unfulfilled.
  - eapply iteration_unfulfilled; try done.
    destruct (rawResult readResult index) as [raw|] eqn:Hraw; [|done].
    apply rawResult_in_range in Hraw. lia.
Qed.

(** A successful run of the loop is the in-order assignment of the raw
    results to the read entries it visits. *)
Lemma populateFrom_assigns n :
  forall i index responses (heap : Heap) responses' heap',
    populateFrom readResult n i index responses heap
      = (Returned responses', heap') ->
    assignInOrder readResult index
      (readEntries heap (take n (drop i responses))) heap = Some heap'.
Proof.
  induction n as [|n IH]; intros i index responses heap responses' heap' Hrun.
  - simpl in Hrun. by injection Hrun as <- <-.
  - destruct (populateFrom_iteration n i index responses heap)
      as [e _|ref object Hi Href Hop|ref object e Hi Href Hop Hraw
          |ref object raw Hi Href Hop Hraw]; try discriminate Hrun.
    + rewrite (visited_cons _ _ _ _ Hi),
        (readEntries_cons_other _ _ _ _ Href Hop).
      by eapply IH.
    + rewrite (visited_cons _ _ _ _ Hi),
        (readEntries_cons_read _ _ _ _ Href Hop).
      simpl. rewrite Hraw. simpl.
      rewrite (alter_reconciled _ _ object) by done.
      rewrite <- (readEntries_insert heap ref object (reconciled object raw))
        by done.
      by eapply IH.
Qed.

(** What a successful run of the loop leaves: the array as it was, every
    object outside the read entries it visited as it was, and every object
    with its identifier, version, operation and resource type as they
    were. *)
Lemma populateFrom_frame n :
  forall i index responses (heap : Heap) responses' heap',
    populateFrom readResult n i index responses heap
      = (Returned responses', heap') ->
    responses' = responses /\
    (forall ref,
        ref ∉ readEntries heap (take n (drop i responses)) ->
        heap' !! ref = heap !! ref) /\
    (forall ref object,
        heap !! ref = Some object ->
        exists object',
          heap' !! ref = Some object' /\ sameButPayload object object') /\
    (forall ref, heap !! ref = None -> heap' !! ref = None).
Proof.
  induction n as [|n IH]; intros i index responses heap responses' heap' Hrun.
  - simpl in Hrun. injection Hrun as <- <-.
    repeat split; try done. intros ref object Href. exists object.
    split; [done|apply sameButPayload_refl].
  - destruct (populateFrom_iteration n i index responses heap)
      as [e _|ref object Hi Href Hop|ref object e Hi Href Hop Hraw
          |ref object raw Hi Href Hop Hraw]; try discriminate Hrun.
    + apply IH in Hrun as (-> & Hframe & Hsame & Hnone).
      rewrite (visited_cons _ _ _ _ Hi),
        (readEntries_cons_other _ _ _ _ Href Hop).
      done.
    + apply IH in Hrun as (-> & Hframe & Hsame & Hnone).
      rewrite (readEntries_insert _ _ object) in Hframe by done.
      rewrite (visited_cons _ _ _ _ Hi),
        (readEntries_cons_read _ _ _ _ Href Hop).
      repeat split.
      * intros ref' Hnot. apply not_elem_of_cons in Hnot as [Hne Hnot].
        by rewrite (Hframe _ Hnot), lookup_insert_ne.
      * intros ref' object' Href'.
        destruct (decide (ref = ref')) as [<-|Hne].
        -- destruct (Hsame ref (reconciled object raw)) as (o & Ho & Hso);
             [by rewrite lookup_insert_eq|].
           exists o. split; [done|].
           assert (object' = object) as -> by congruence.
           eapply sameButPayload_trans; [apply sameButPayload_reconciled|done].
        -- apply Hsame. by rewrite lookup_insert_ne.
      * intros ref' Href'. apply Hnone.
        rewrite lookup_insert_ne; [done|]. congruence.
Qed.

(** On a successful run over distinct read entries, the [k]th read entry
    visited holds the raw result number [index + k]. *)
Lemma populateFrom_results n :
  forall i index responses (heap : Heap) responses' heap',
    populateFrom readResult n i index responses heap
      = (Returned responses', heap') ->
    NoDup (readEntries heap (take n (drop i responses))) ->
    forall k ref,
      readEntries heap (take n (drop i responses)) !! k = Some ref ->
      exists raw object,
        rawResult readResult (index + k) = Some raw /\
        heap !! ref = Some object /\
        heap' !! ref = Some (reconciled object raw).
Proof.
  induction n as [|n IH];
    intros i index responses heap responses' heap' Hrun Hdup k ref' Hk.
  - by rewrite take_0 in Hk.
  - destruct (populateFrom_iteration n i index responses heap)
      as [e _|ref object Hi Href Hop|ref object e Hi Href Hop Hraw
          |ref object raw Hi Href Hop Hraw]; try discriminate Hrun.
    + rewrite (visited_cons _ _ _ _ Hi),
        (readEntries_cons_other _ _ _ _ Href Hop) in Hdup, Hk.
      by eapply IH.
    + rewrite (visited_cons _ _ _ _ Hi),
        (readEntries_cons_read _ _ _ _ Href Hop) in Hdup, Hk.
      apply NoDup_cons in Hdup as [Hfresh Hdup].
      pose proof (populateFrom_frame _ _ _ _ _ _ _ Hrun)
        as (_ & Hframe & _ & _).
      rewrite (readEntries_insert _ _ object) in Hframe by done.
      destruct k as [|k]; simpl in Hk.
      * injection Hk as <-. exists raw, object.
        rewrite Nat.add_0_r, (Hframe _ Hfresh), lookup_insert_eq. done.
      * assert (ref <> ref') as Hne.
        { intros ->. apply Hfresh. by eapply list_elem_of_lookup_2. }
        destruct (IH _ _ _ _ _ _ Hrun) with (k := k) (ref := ref')
          as (raw' & object' & Hraw' & Href' & Hfinal).
        -- by rewrite (readEntries_insert _ _ object).
        -- by rewrite (readEntries_insert _ _ object).
        -- exists raw', object'. rewrite lookup_insert_ne in Href' by done.
           by rewrite Nat.add_succ_r.
Qed.

(** When the raw results run out before the read entries do, the loop
    throws. *)
Lemma populateFrom_throws n :
  forall i index responses (heap : Heap),
    (index <= rawResultCount readResult)%nat ->
    (rawResultCount readResult
     < index + length (readEntries heap (take n (drop i responses))))%nat ->
    exists e heap',
      populateFrom readResult n i index responses heap = (Thrown e, heap').
Proof.
  induction n as [|n IH]; intros i index responses heap Hindex Hshort.
  - rewrite take_0 in Hshort. simpl in Hshort. lia.
  - destruct (populateFrom_iteration n i index responses heap)
      as [e _|ref object Hi Href Hop|ref object e Hi Href Hop Hraw
          |ref object raw Hi Href Hop Hraw]; eauto.
    + rewrite (visited_cons _ _ _ _ Hi),
        (readEntries_cons_other _ _ _ _ Href Hop) in Hshort.
      by apply IH.
    + rewrite (visited_cons _ _ _ _ Hi),
        (readEntries_cons_read _ _ _ _ Href Hop) in Hshort.
      simpl in Hshort. apply rawResult_in_range in Hraw.
      apply IH; [lia|].
      rewrite (readEntries_insert _ _ object) by done. lia.
Qed.

(** When every reference visited denotes an object and every read entry
    visited has its raw result, the loop returns. *)
Lemma populateFrom_returns n :
  forall i index responses (heap : Heap),
    (i + n <= length responses)%nat ->
    Forall (fun ref => is_Some (heap !! ref)) (take n (drop i responses)) ->
    (forall k,
        (k < length (readEntries heap (take n (drop i responses))))%nat ->
        is_Some (rawResult readResult (index + k))) ->
    exists heap',
      populateFrom readResult n i index responses heap
        = (Returned responses, heap').
Proof.
  induction n as [|n IH]; intros i index responses heap Hlen Hobjects Hraws.
  - simpl. by eexists.
  - destruct (lookup_lt_is_Some_2 responses i) as [ref0 Hi0]; [lia|].
    rewrite (visited_cons _ _ _ _ Hi0) in Hobjects, Hraws.
    apply Forall_cons in Hobjects as [[object0 Href0] Hobjects].
    destruct (populateFrom_iteration n i index responses heap)
      as [e [Hi|(ref & Hi & Href)]|ref object Hi Href Hop
          |ref object e Hi Href Hop Hraw|ref object raw Hi Href Hop Hraw];
      try congruence;
      assert (ref = ref0) as -> by congruence.
    + rewrite (readEntries_cons_other _ _ _ _ Href Hop) in Hraws.
      apply IH; [lia|done|done].
    + rewrite (readEntries_cons_read _ _ _ _ Href Hop) in Hraws.
      destruct (Hraws 0%nat) as [raw Hsome]; [simpl; lia|].
      rewrite Nat.add_0_r in Hsome. congruence.
    + rewrite (readEntries_cons_read _ _ _ _ Href Hop) in Hraws.
      apply IH; [lia| |].
      * eapply Forall_impl; [exact Hobjects|]. intros ref' Hsome. simpl.
        destruct (decide (ref0 = ref')) as [<-|Hne];
          [by rewrite lookup_insert_eq|by rewrite lookup_insert_ne].
      * intros k Hk. rewrite (readEntries_insert _ _ object) in Hk by done.
        replace (S index + k)%nat with (index + S k)%nat by lia.
        apply Hraws. simpl. lia.
Qed.

(** C5: [populateBundleEntryResponseWithReadResult] hands the raw read
    results to the read entries strictly in order. Whenever it returns, the
    heap it leaves is the one obtained by writing the Nth raw result (decoded
    and cleaned, with its last-modified timestamp) into the Nth read entry of
    the response sequence, for N = 0, 1, ... in this order; so, the read
    entries being distinct objects, the Nth read entry holds the Nth raw
    result. Whenever the raw-result sequence is shorter than the number of
    read entries, it throws instead of returning. And it does return when
    every entry is an object and every read entry has its raw result. *)
Theorem reconciler_consumes_results_in_order responses
    (heap : Heap) :
  (forall responses' heap',
      populateBundleEntryResponseWithReadResult responses readResult heap
        = (Returned responses', heap') ->
      assignInOrder readResult 0 (readEntries heap responses) heap
        = Some heap') /\
  (forall responses' heap',
      populateBundleEntryResponseWithReadResult responses readResult heap
        = (Returned responses', heap') ->
      NoDup (readEntries heap responses) ->
      forall N ref,
        readEntries heap responses !! N = Some ref ->
        exists raw object,
          rawResult readResult N = Some raw /\
          heap !! ref = Some object /\
          heap' !! ref = Some (reconciled object raw)) /\
  ((rawResultCount readResult < length (readEntries heap responses))%nat ->
   exists e heap',
     populateBundleEntryResponseWithReadResult responses readResult heap
       = (Thrown e, heap')) /\
  (Forall (fun ref => is_Some (heap !! ref)) responses ->
   (forall N, (N < length (readEntries heap responses))%nat ->
              is_Some (rawResult readResult N)) ->
   exists heap',
     populateBundleEntryResponseWithReadResult responses readResult heap
       = (Returned responses, heap')).
Proof.
  unfold populateBundleEntryResponseWithReadResult. split; [|split; [|split]].
  - intros responses' heap' Hrun.
    rewrite <- (visited_all responses) at 1.
    exact (populateFrom_assigns _ _ _ _ _ _ _ Hrun).
  - intros responses' heap' Hrun Hdup N ref HN.
    rewrite <- (visited_all responses) in Hdup, HN.
    exact (populateFrom_results _ _ _ _ _ _ _ Hrun Hdup N ref HN).
  - intros Hshort. apply populateFrom_throws; [lia|].
    by rewrite visited_all.
  - intros Hobjects Hraws. apply populateFrom_returns; [done| |];
      by rewrite visited_all.
Qed.

(** C8: whenever [populateBundleEntryResponseWithReadResult] returns, it
    returns the very sequence it was given, in its original length and order;
    every object whose operation is not read is exactly as it was; every
    object keeps its identifier, version, operation and resource type, so
    that only the payload and the last-modified timestamp of read entries
    have been written, in place; and no object has appeared or disappeared. *)
Theorem reconciler_touches_only_read_entries responses
    (heap : Heap) responses' heap' :
  populateBundleEntryResponseWithReadResult responses readResult heap
    = (Returned responses', heap') ->
  responses' = responses /\
  (forall ref object,
      heap !! ref = Some object ->
      resp_operation object <> op_read ->
      heap' !! ref = Some object) /\
  (forall ref object,
      heap !! ref = Some object ->
      exists object',
        heap' !! ref = Some object' /\ sameButPayload object object') /\
  (forall ref, ref ∉ responses -> heap' !! ref = heap !! ref) /\
  (forall ref, heap !! ref = None -> heap' !! ref = None).
Proof.
  unfold populateBundleEntryResponseWithReadResult. intros Hrun.
  apply populateFrom_frame in Hrun as (-> & Hframe & Hsame & Hnone).
  rewrite visited_all in Hframe.
  repeat split; try done.
  - intros ref object Href Hop. rewrite Hframe; [done|].
    unfold readEntries. intros Hin%list_elem_of_filter.
    destruct Hin as [Hread _]. unfold isReadEntry in Hread.
    rewrite Href in Hread. simpl in Hread. congruence.
  - intros ref Hnot. apply Hframe. unfold readEntries.
    intros Hin%list_elem_of_filter. by destruct Hin.
Qed.

End Reconciler.

(** *** Concrete response sequences *)

Lemma reconciler_consumes_results_in_order_witness :
  (exists heap',
      populateBundleEntryResponseWithReadResult responses0 readResult0 heap0
        = (Returned responses0, heap') /\
      exists raw object,
        rawResult readResult0 1 = Some raw /\
        heap0 !! 13%nat = Some object /\
        heap' !! 13%nat = Some (reconciled object raw)) /\
  (exists e heap',
      populateBundleEntryResponseWithReadResult responses0 readResult1 heap0
        = (Thrown e, heap')).
Proof.
  split.
  - destruct (proj2 (proj2 (proj2 (reconciler_consumes_results_in_order
                                     readResult0 responses0 heap0))))
      as [heap' Hrun].
    + apply (bool_decide_unpack _). vm_compute. exact I.
    + intros N HN. apply (bool_decide_unpack _).
      destruct N as [|[|N]]; [vm_compute; exact I..|].
      vm_compute in HN. lia.
    + exists heap'. split; [exact Hrun|].
      apply (proj1 (proj2 (reconciler_consumes_results_in_order
                             readResult0 responses0 heap0))
               responses0 heap' Hrun).
      * apply (bool_decide_unpack _). vm_compute. exact I.
      * vm_compute. reflexivity.
  - apply (proj1 (proj2 (proj2 (reconciler_consumes_results_in_order
                                  readResult1 responses0 heap0)))).
    vm_compute. lia.
Defined.

Lemma reconciler_touches_only_read_entries_witness :
  exists heap',
    populateBundleEntryResponseWithReadResult responses0 readResult0 heap0
      = (Returned responses0, heap') /\
    heap' !! 10%nat = Some (responseFor op_create "c1" "1") /\
    heap' !! 12%nat = Some (responseFor op_delete "p2" "4").
Proof.
  eexists. split; [vm_compute; reflexivity|].
  match goal with
  | |- ?heap' !! _ = _ /\ _ =>
      destruct (reconciler_touches_only_read_entries
                  readResult0 responses0 heap0 responses0 heap')
        as (_ & Hother & _); [vm_compute; reflexivity|]
  end.
  split; apply Hother; (reflexivity || discriminate).
Defined.

(** ** The scenarios of the specification *)

(** An update of ["p1"] at current version 2 stages version 3. *)
Example scenario_update :
  match fst (generateStagingRequests [requestFor op_update "p1"]
               {[ "p1" := 2 ]} None world0) with
  | Returned st =>
      map (fun put => (item_vid (stagedDocument put),
                       item_documentStatus (stagedDocument put)))
        (updateRequests st) = [(number 3, PENDING)] /\
      map lock_isOriginalUpdateItem (newLocks st) = [Some false] /\
      map resp_vid (newStagingResponses st) = ["3"]
  | Thrown _ => False
  end.
Proof. vm_compute. by repeat split. Qed.

(** A delete of ["p1"] at version 3 moves it from [LOCKED] to
    [PENDING_DELETE] and locks nothing. *)
Example scenario_delete :
  match fst (generateStagingRequests [requestFor op_delete "p1"]
               {[ "p1" := 3 ]} None world0) with
  | Returned st =>
      deleteRequests st =
        [buildUpdateDocumentStatusParam LOCKED PENDING_DELETE "p1"
           (number 3) "Patient" None] /\
      newLocks st = [] /\
      newStagingResponses st =
        [ {| resp_id := "p1"; resp_vid := "3"; resp_operation := op_delete;
             resp_lastModified := "2021-03-01T10:00:00.000Z";
             resp_resourceType := "Patient"; resp_resource := emptyObject |} ]
  | Thrown _ => False
  end.
Proof. vm_compute. by repeat split. Qed.

(** Rolling back one create; a delete and a read need no compensation. *)
Example scenario_rollback :
  generateRollbackRequests [responseFor op_create "p1" "1"] None =
    {| transactionRequests := [buildDeleteParam "p1" (number 1) None];
       itemsToRemoveFromLock :=
         [ {| rel_id := "p1"; rel_vid := "1";
              rel_resourceType := "Patient" |} ] |} /\
  generateRollbackRequests
    [responseFor op_delete "p1" "3"; responseFor op_read "p1" "3"] None =
    {| transactionRequests := []; itemsToRemoveFromLock := [] |}.
Proof. split; reflexivity. Qed.

(** ** Outside the range of everyday versions *)

(** From 10^21 on a version is printed in exponent notation, and is read
    back as its first digit. *)
Example scenario_update_at_1e21 :
  match fst (generateStagingRequests [requestFor op_update "p1"]
               {[ "p1" := 10 ^ 21 ]} None world0) with
  | Returned st =>
      map (fun put => item_vid (stagedDocument put)) (updateRequests st)
        = [number (10 ^ 21)] /\
      map lock_vid (newLocks st) = [number 1] /\
      map resp_vid (newStagingResponses st) = ["1e+21"]
  | Thrown _ => False
  end.
Proof. vm_compute. by repeat split. Qed.

(** A delete of the identifier ["constructor"], which the mapping does not
    have, finds the function [Object] that every plain object inherits: the
    call returns, with that function as the version of the status
    transition and its text as the version of the response. *)
Example scenario_delete_of_inherited_name :
  match fst (generateStagingRequests [requestFor op_delete "constructor"]
               ∅ None world0) with
  | Returned st =>
      deleteRequests st =
        [buildUpdateDocumentStatusParam LOCKED PENDING_DELETE "constructor"
           (inherited "constructor") "Patient" None] /\
      map resp_vid (newStagingResponses st) =
        ["function Object() { [native code] }"]
  | Thrown _ => False
  end.
Proof. vm_compute. by repeat split. Qed.

(** * Further properties *)

(** ** The walk over a batch *)

Lemma forEach_app {S A B} (body : B -> A -> Eff S B) l1 l2 acc s :
  forEach body (l1 ++ l2) acc s =
  match forEach body l1 acc s with
  | (Returned acc', s') => forEach body l2 acc' s'
  | (Thrown e, s') => (Thrown e, s')
  end.
Proof.
  revert acc s. induction l1 as [|x l1 IH]; intros acc s; [done|].
  rewrite <- app_comm_cons, !forEach_cons.
  destruct (body acc x s) as [[acc'|e] s']; [apply IH|done].
Qed.

Lemma appendStaging_assoc a b c :
  appendStaging (appendStaging a b) c = appendStaging a (appendStaging b c).
Proof. unfold appendStaging. simpl. by rewrite <- !app_assoc. Qed.

Lemma appendStaging_empty_r a : appendStaging a noStagingRequests = a.
Proof. destruct a. unfold appendStaging. simpl. by rewrite !app_nil_r. Qed.

Section StagingWalk.

Variable idToVersionId : gmap string Z.
Variable tenantId : option string.

Lemma stageRequest_unrecognized acc request w :
  isRecognized (req_operation request) = false ->
  stageRequest idToVersionId tenantId acc request w = (Returned acc, w).
Proof.
  unfold stageRequest. by destruct (req_operation request).
Qed.

(** X1: a request whose operation is none of create, update, delete and
    read leaves no trace: staging a batch gives the outcome, and leaves the
    world, that staging the batch without these requests gives. *)
Theorem staging_skips_unrecognized requests w :
  generateStagingRequests requests idToVersionId tenantId w =
  generateStagingRequests
    (filter (fun request => isRecognized (req_operation request) = true)
       requests)
    idToVersionId tenantId w.
Proof.
  unfold generateStagingRequests. generalize noStagingRequests. revert w.
  induction requests as [|request requests IH]; intros w acc; [done|].
  destruct (isRecognized (req_operation request)) eqn:Hkind.
  - rewrite filter_cons_True by done. rewrite !forEach_cons.
    destruct (stageRequest idToVersionId tenantId acc request w)
      as [[acc'|e] w1]; [apply IH|done].
  - rewrite filter_cons_False by (rewrite Hkind; discriminate).
    rewrite forEach_cons, stageRequest_unrecognized by done. apply IH.
Qed.

(** Every request adds to the arrays built so far, and what it adds does not
    depend on them. *)
Lemma stageRequest_accumulates acc request w :
  stageRequest idToVersionId tenantId acc request w =
  match stageRequest idToVersionId tenantId noStagingRequests request w with
  | (Returned added, w') => (Returned (appendStaging acc added), w')
  | (Thrown e, w') => (Thrown e, w')
  end.
Proof.
  destruct acc. unfold stageRequest, appendStaging.
  destruct (req_operation request); eff_unfold; simpl;
    rewrite ?app_nil_r; try reflexivity;
    destruct (getProperty idToVersionId (req_id request)); simpl;
    by rewrite ?app_nil_r.
Qed.

Lemma forEach_accumulates requests acc w :
  forEach (stageRequest idToVersionId tenantId) requests acc w =
  match forEach (stageRequest idToVersionId tenantId) requests
          noStagingRequests w with
  | (Returned added, w') => (Returned (appendStaging acc added), w')
  | (Thrown e, w') => (Thrown e, w')
  end.
Proof.
  revert acc w. induction requests as [|request requests IH]; intros acc w.
  - simpl. unfold mret, Eff_ret. by rewrite appendStaging_empty_r.
  - rewrite !forEach_cons, stageRequest_accumulates.
    destruct (stageRequest idToVersionId tenantId noStagingRequests request w)
      as [[added|e] w1]; [|done].
    rewrite (IH (appendStaging acc added) w1), (IH added w1).
    destruct (forEach _ requests noStagingRequests w1) as [[rest|e] w2];
      [|done].
    by rewrite !appendStaging_assoc.
Qed.

(** X2: staging a batch made of two batches is staging the first and then,
    in the world the first leaves, the second: when both return, the result
    is the two results bucket by bucket one after the other; when the first
    throws the second is not staged, and when the second throws so does the
    whole. *)
Theorem staging_of_concatenation requests1 requests2 w :
  generateStagingRequests (requests1 ++ requests2) idToVersionId tenantId w =
  match generateStagingRequests requests1 idToVersionId tenantId w with
  | (Returned st1, w1) =>
      match generateStagingRequests requests2 idToVersionId tenantId w1 with
      | (Returned st2, w2) => (Returned (appendStaging st1 st2), w2)
      | (Thrown e, w2) => (Thrown e, w2)
      end
  | (Thrown e, w1) => (Thrown e, w1)
  end.
Proof.
  unfold generateStagingRequests. rewrite forEach_app.
  destruct (forEach _ requests1 noStagingRequests w) as [[st1|e] w1]; [|done].
  apply forEach_accumulates.
Qed.

End StagingWalk.

(** ** What each kind of request contributes *)

Section StagingBuckets.

Variable idToVersionId : gmap string Z.
Variable tenantId : option string.

(** The invariant rule of the walk, with the world the walk has reached. *)
Lemma generateStagingRequests_invariant_world w0
    (I : list BatchReadWriteRequest -> StagingRequests -> World -> Prop) :
  I [] noStagingRequests w0 ->
  (forall walked acc request w acc' w',
      I walked acc w ->
      stageRequest idToVersionId tenantId acc request w
        = (Returned acc', w') ->
      I (walked ++ [request]) acc' w') ->
  forall requests st w',
    generateStagingRequests requests idToVersionId tenantId w0
      = (Returned st, w') ->
    I requests st w'.
Proof.
  intros Hinit Hstep requests st w'. unfold generateStagingRequests.
  change requests with ([] ++ requests) at 2.
  generalize (@nil BatchReadWriteRequest) noStagingRequests w0 Hinit.
  induction requests as [|request requests IH]; intros walked acc w Hacc Hrun.
  - simpl in Hrun. injection Hrun as <- <-. by rewrite app_nil_r.
  - rewrite forEach_cons in Hrun.
    destruct (stageRequest idToVersionId tenantId acc request w)
      as [[acc'|e] w1] eqn:Hone; [|discriminate].
    rewrite cons_middle, (assoc_L (++)).
    eapply IH; [|exact Hrun]. eapply Hstep; eassumption.
Qed.

Lemma imap_snoc {A B} (f : nat -> A -> B) l x :
  imap f (l ++ [x]) = imap f l ++ [f (length l) x].
Proof. rewrite imap_app. simpl. by rewrite Nat.add_0_r. Qed.

Lemma created_identifiers requests w st w' :
  generateStagingRequests requests idToVersionId tenantId w
    = (Returned st, w') ->
  uuids w' = uuids w /\
  uuidsDrawn w' =
    (uuidsDrawn w +
     length (filter (fun request => req_operation request = op_create)
               requests))%nat /\
  map resp_id
    (filter (fun response => resp_operation response = op_create)
       (newStagingResponses st)) =
    imap (identifierOfCreate w)
      (filter (fun request => req_operation request = op_create) requests) /\
  map lock_id
    (filter (fun lock => lock_operation lock = op_create) (newLocks st)) =
    imap (identifierOfCreate w)
      (filter (fun request => req_operation request = op_create) requests).
Proof.
  revert requests st w'.
  apply (generateStagingRequests_invariant_world w (fun walked acc wc =>
    uuids wc = uuids w /\
    uuidsDrawn wc =
      (uuidsDrawn w +
       length (filter (fun request => req_operation request = op_create)
                 walked))%nat /\
    map resp_id
      (filter (fun response => resp_operation response = op_create)
         (newStagingResponses acc)) =
      imap (identifierOfCreate w)
        (filter (fun request => req_operation request = op_create) walked) /\
    map lock_id
      (filter (fun lock => lock_operation lock = op_create) (newLocks acc)) =
      imap (identifierOfCreate w)
        (filter (fun request => req_operation request = op_create) walked)));
    [by rewrite Nat.add_0_r|].
  intros walked acc request wc acc' w' (Hu & Hd & Hr & Hl) Hstep.
  rewrite !filter_snoc.
  stage_cases Hstep; rewrite ?Hop; simpl;
    rewrite ?filter_snoc; simpl; rewrite ?app_nil_r, ?Nat.add_0_r;
    try done.
  rewrite length_app, imap_snoc, !map_app, Hr, Hl. simpl.
  unfold identifierOfCreate at 3 5. rewrite Hu, Hd.
  repeat split; [lia|done..].
Qed.

(** X3: in what [generateStagingRequests] returns, the response and the lock
    descriptor of the [j]th create of the batch carry the identifier the
    request supplies when that is not empty, and otherwise the identifier the
    [j]th call of [uuidv4()] gave: one identifier is drawn for every create,
    also for those that supply their own. *)
Theorem staging_identifies_creates requests w st w' :
  generateStagingRequests requests idToVersionId tenantId w
    = (Returned st, w') ->
  map resp_id
    (filter (fun response => resp_operation response = op_create)
       (newStagingResponses st)) =
    imap (identifierOfCreate w)
      (filter (fun request => req_operation request = op_create) requests) /\
  map lock_id
    (filter (fun lock => lock_operation lock = op_create) (newLocks st)) =
    imap (identifierOfCreate w)
      (filter (fun request => req_operation request = op_create) requests) /\
  uuidsDrawn w' =
    (uuidsDrawn w +
     length (filter (fun request => req_operation request = op_create)
               requests))%nat.
Proof.
  intros Hrun.
  destruct (created_identifiers _ _ _ _ Hrun) as (_ & Hd & Hr & Hl).
  done.
Qed.

(** X4: when the identifier generator never gives the same identifier twice
    and no create of the batch supplies an identifier, the creates of one
    batch get pairwise distinct identifiers. *)
Theorem staging_creates_distinct requests w st w' :
  (forall a b, uuids w a = uuids w b -> a = b) ->
  Forall (fun request =>
            req_operation request = op_create -> req_id request = "")
    requests ->
  generateStagingRequests requests idToVersionId tenantId w
    = (Returned st, w') ->
  NoDup (map resp_id
           (filter (fun response => resp_operation response = op_create)
              (newStagingResponses st))).
Proof.
  intros Hinj Hnoid Hrun.
  destruct (created_identifiers _ _ _ _ Hrun) as (_ & _ & -> & _).
  apply NoDup_alt. intros i j x Hi Hj.
  rewrite list_lookup_imap in Hi, Hj.
  destruct (filter _ requests !! i) as [ri|] eqn:Hri; [|discriminate].
  destruct (filter _ requests !! j) as [rj|] eqn:Hrj; [|discriminate].
  assert (forall k r, filter (fun request => req_operation request = op_create)
                        requests !! k = Some r ->
                      identifierOfCreate w k r = uuids w (uuidsDrawn w + k)%nat)
    as Hgen.
  { intros k r Hk. apply list_elem_of_lookup_2, list_elem_of_filter in Hk.
    destruct Hk as [Hop Hin].
    rewrite Forall_forall in Hnoid. unfold identifierOfCreate.
    by rewrite (Hnoid r Hin Hop). }
  simpl in Hi, Hj. rewrite (Hgen _ _ Hri) in Hi. rewrite (Hgen _ _ Hrj) in Hj.
  assert (uuidsDrawn w + i = uuidsDrawn w + j)%nat by (apply Hinj; congruence).
  lia.
Qed.

End StagingBuckets.

Section StagingContents.

Variable idToVersionId : gmap string Z.
Variable tenantId : option string.

(** X5: in what [generateStagingRequests] returns, every delete of the batch
    has, in order, one status transition from [LOCKED] to [PENDING_DELETE],
    for its identifier, its resource type, the tenant and the value that
    [idToVersionId[id]] gives, which is never undefined: it is the mapped
    version, or, for an identifier the mapping does not have, the member of
    [Object.prototype] of that name; and one response that repeats
    identifier and resource type, carries the string of that value as its
    version and has the empty payload. *)
Theorem staging_delete_transitions requests w st w' :
  generateStagingRequests requests idToVersionId tenantId w
    = (Returned st, w') ->
  Forall2 (fun request param =>
             getProperty idToVersionId (req_id request) <> undefined /\
             param =
               buildUpdateDocumentStatusParam LOCKED PENDING_DELETE
                 (req_id request)
                 (getProperty idToVersionId (req_id request))
                 (req_resourceType request) tenantId)
    (filter (fun request => req_operation request = op_delete) requests)
    (deleteRequests st) /\
  Forall2 (fun request response =>
             resp_id response = req_id request /\
             resp_vid response =
               valueToString (getProperty idToVersionId (req_id request)) /\
             resp_resourceType response = req_resourceType request /\
             resp_resource response = emptyObject)
    (filter (fun request => req_operation request = op_delete) requests)
    (filter (fun response => resp_operation response = op_delete)
       (newStagingResponses st)).
Proof.
  revert requests w st w'.
  apply (generateStagingRequests_invariant idToVersionId tenantId
    (fun walked acc =>
      Forall2 (fun request param =>
                 getProperty idToVersionId (req_id request) <> undefined /\
                 param =
                   buildUpdateDocumentStatusParam LOCKED PENDING_DELETE
                     (req_id request)
                     (getProperty idToVersionId (req_id request))
                     (req_resourceType request) tenantId)
        (filter (fun request => req_operation request = op_delete) walked)
        (deleteRequests acc) /\
      Forall2 (fun request response =>
                 resp_id response = req_id request /\
                 resp_vid response =
                   valueToString
                     (getProperty idToVersionId (req_id request)) /\
                 resp_resourceType response = req_resourceType request /\
                 resp_resource response = emptyObject)
        (filter (fun request => req_operation request = op_delete) walked)
        (filter (fun response => resp_operation response = op_delete)
           (newStagingResponses acc)))); [by split; constructor|].
  intros walked acc request w acc' w' [IHp IHr] Hstep.
  rewrite filter_snoc.
  stage_cases Hstep; rewrite ?Hop; simpl;
    rewrite ?filter_snoc; simpl; rewrite ?app_nil_r; try done.
  split; apply Forall2_snoc; done.
Qed.

(** X6: in what [generateStagingRequests] returns, every read of the batch
    has, in order, one point read on [RESOURCE_TABLE] keyed by the hash key
    of its identifier and the tenant and by the value that
    [idToVersionId[id]] gives, which is never undefined: it is the mapped
    version, or, for an identifier the mapping does not have, the member of
    [Object.prototype] of that name; and one placeholder response that
    repeats identifier and resource type, carries the string of that value
    as its version and has the empty payload and the empty last-modified
    timestamp. So the Nth read placeholder of the responses belongs to the
    Nth read request. *)
Theorem staging_read_placeholders requests w st w' :
  generateStagingRequests requests idToVersionId tenantId w
    = (Returned st, w') ->
  Forall2 (fun request get =>
             getProperty idToVersionId (req_id request) <> undefined /\
             get =
               {| Get_TableName := RESOURCE_TABLE;
                  Get_Key :=
                    marshall
                      {| key_id := buildHashKey (req_id request) tenantId;
                         key_vid :=
                           getProperty idToVersionId (req_id request) |} |})
    (filter (fun request => req_operation request = op_read) requests)
    (readRequests st) /\
  Forall2 (fun request response =>
             resp_id response = req_id request /\
             resp_vid response =
               valueToString (getProperty idToVersionId (req_id request)) /\
             resp_resourceType response = req_resourceType request /\
             resp_resource response = emptyObject /\
             resp_lastModified response = "")
    (filter (fun request => req_operation request = op_read) requests)
    (filter (fun response => resp_operation response = op_read)
       (newStagingResponses st)).
Proof.
  revert requests w st w'.
  apply (generateStagingRequests_invariant idToVersionId tenantId
    (fun walked acc =>
      Forall2 (fun request get =>
                 getProperty idToVersionId (req_id request) <> undefined /\
                 get =
                   {| Get_TableName := RESOURCE_TABLE;
                      Get_Key :=
                        marshall
                          {| key_id := buildHashKey (req_id request) tenantId;
                             key_vid :=
                               getProperty idToVersionId (req_id request)
                          |} |})
        (filter (fun request => req_operation request = op_read) walked)
        (readRequests acc) /\
      Forall2 (fun request response =>
                 resp_id response = req_id request /\
                 resp_vid response =
                   valueToString
                     (getProperty idToVersionId (req_id request)) /\
                 resp_resourceType response = req_resourceType request /\
                 resp_resource response = emptyObject /\
                 resp_lastModified response = "")
        (filter (fun request => req_operation request = op_read) walked)
        (filter (fun response => resp_operation response = op_read)
           (newStagingResponses acc)))); [by split; constructor|].
  intros walked acc request w acc' w' [IHp IHr] Hstep.
  rewrite filter_snoc.
  stage_cases Hstep; rewrite ?Hop; simpl;
    rewrite ?filter_snoc; simpl; rewrite ?app_nil_r; try done.
  split; apply Forall2_snoc; done.
Qed.

(** X7: in what [generateStagingRequests] returns, the response of every
    create and update carries as payload the resource of its request with
    its other properties and its resource type untouched and a [meta] of its
    own; identifier, resource type, version and last-modified timestamp of
    the response are those of that payload and its [meta]. *)
Theorem staging_responses_match_payload requests w st w' :
  generateStagingRequests requests idToVersionId tenantId w
    = (Returned st, w') ->
  Forall2 answersStagedRequest
    (filter (fun request => stagesVersion (req_operation request) = true)
       requests)
    (filter (fun response => stagesVersion (resp_operation response) = true)
       (newStagingResponses st)).
Proof.
  revert requests w st w'.
  apply (generateStagingRequests_invariant idToVersionId tenantId
    (fun walked acc =>
      Forall2 answersStagedRequest
        (filter (fun request => stagesVersion (req_operation request) = true)
           walked)
        (filter (fun response =>
                   stagesVersion (resp_operation response) = true)
           (newStagingResponses acc)))); [constructor|].
  intros walked acc request w acc' w' IH Hstep.
  rewrite filter_snoc.
  stage_cases Hstep; rewrite ?Hop; simpl;
    rewrite ?filter_snoc; simpl; rewrite ?app_nil_r; try done;
    apply Forall2_snoc; try done;
    eexists _, _; simpl; rewrite ?Hop; by repeat split.
Qed.

End StagingContents.

(** ** Rollback, again *)

(** X8: rolling back a response list made of two lists gives the
    compensating deletes of the first followed by those of the second, and
    likewise the lock releases: what has been staged before a failure is
    rolled back the same whatever follows it. *)
Theorem rollback_of_concatenation responses1 responses2 t :
  transactionRequests (generateRollbackRequests (responses1 ++ responses2) t) =
    transactionRequests (generateRollbackRequests responses1 t) ++
    transactionRequests (generateRollbackRequests responses2 t) /\
  itemsToRemoveFromLock
    (generateRollbackRequests (responses1 ++ responses2) t) =
    itemsToRemoveFromLock (generateRollbackRequests responses1 t) ++
    itemsToRemoveFromLock (generateRollbackRequests responses2 t).
Proof.
  rewrite !generateRollbackRequests_closed_form. simpl.
  by rewrite filter_app, !map_app.
Qed.

(** The rollback generator reads operation, identifier, version and resource
    type of a response, and nothing else. *)
Lemma rollback_reads_four_properties responses responses' t :
  Forall2 sameButPayload responses responses' ->
  generateRollbackRequests responses' t = generateRollbackRequests responses t.
Proof.
  intros Hsame. rewrite !generateRollbackRequests_closed_form.
  induction Hsame as [|object object' l l' (Hid & Hvid & Hop & Hty) _ IH];
    [done|].
  injection IH as IHd IHr.
  destruct (stagesVersion (resp_operation object)) eqn:Hkind.
  - rewrite !filter_cons_True by (by rewrite ?Hop). simpl.
    by rewrite IHd, IHr, Hid, Hvid, Hty.
  - rewrite !filter_cons_False by (rewrite ?Hop, Hkind; discriminate).
    by rewrite IHd, IHr.
Qed.

(** X9: the total number of put requests [generateStagingRequests] returns
    is the number of compensating deletes that [generateRollbackRequests]
    computes from the responses of the same call: every staged put has its
    compensation, and there is no other. *)
Theorem rollback_compensates_every_put requests m t w st w' t' :
  generateStagingRequests requests m t w = (Returned st, w') ->
  length (transactionRequests
            (generateRollbackRequests (newStagingResponses st) t')) =
  (length (createRequests st) + length (updateRequests st))%nat.
Proof.
  rewrite generateRollbackRequests_closed_form. simpl. rewrite length_map.
  revert requests w st w'.
  apply (generateStagingRequests_invariant m t (fun walked acc =>
    length (filter (fun response =>
                      stagesVersion (resp_operation response) = true)
              (newStagingResponses acc)) =
    (length (createRequests acc) + length (updateRequests acc))%nat));
    [done|].
  intros walked acc request w acc' w' IH Hstep.
  stage_cases Hstep; rewrite ?filter_snoc; simpl;
    rewrite ?length_app, ?app_nil_r; simpl; lia.
Qed.

(** ** The read reconciler, again *)

Lemma objectsAt_sameButPayload (heap heap' : Heap) responses :
  (forall ref object,
      heap !! ref = Some object ->
      exists object',
        heap' !! ref = Some object' /\ sameButPayload object object') ->
  (forall ref, heap !! ref = None -> heap' !! ref = None) ->
  Forall2 sameButPayload (objectsAt heap responses)
    (objectsAt heap' responses).
Proof.
  intros Hsame Hnone. unfold objectsAt.
  induction responses as [|ref responses IH]; [constructor|]. simpl.
  destruct (heap !! ref) as [object|] eqn:Href.
  - destruct (Hsame _ _ Href) as (object' & -> & Hso). by constructor.
  - by rewrite (Hnone _ Href).
Qed.

(** X10: reconciliation does not change what a rollback does: whenever
    [populateBundleEntryResponseWithReadResult] returns, the rollback
    requests computed from the responses after it are those computed from
    the responses before it. *)
Theorem rollback_after_reconciliation responses readResult (heap : Heap)
    responses' heap' t :
  populateBundleEntryResponseWithReadResult responses readResult heap
    = (Returned responses', heap') ->
  generateRollbackRequests (objectsAt heap' responses') t =
  generateRollbackRequests (objectsAt heap responses) t.
Proof.
  unfold populateBundleEntryResponseWithReadResult. intros Hrun.
  apply populateFrom_frame in Hrun as (-> & _ & Hsame & Hnone).
  apply rollback_reads_four_properties.
  by apply objectsAt_sameButPayload.
Qed.

(** X11: when no entry of the sequence is a read, the reconciler returns the
    sequence and leaves every object as it was, whatever the read result is,
    undefined or without [Responses] included; so it does on the empty
    sequence. *)
Theorem reconciler_without_reads responses readResult (heap : Heap) :
  Forall (fun ref =>
            exists object,
              heap !! ref = Some object /\ resp_operation object <> op_read)
    responses ->
  populateBundleEntryResponseWithReadResult responses readResult heap
    = (Returned responses, heap).
Proof.
  intros Hother. unfold populateBundleEntryResponseWithReadResult.
  assert (readEntries heap responses = []) as Hnone.
  { unfold readEntries. induction Hother as [|ref l (object & Href & Hop) _ IH];
      [done|].
    rewrite filter_cons_False; [done|].
    unfold isReadEntry. rewrite Href. simpl. congruence. }
  destruct (populateFrom_returns readResult (length responses) 0 0
              responses heap) as [heap' Hrun].
  - lia.
  - rewrite visited_all. eapply Forall_impl; [exact Hother|].
    intros ref (object & Href & _). by exists object.
  - rewrite visited_all, Hnone. simpl. lia.
  - rewrite Hrun. f_equal.
    apply populateFrom_frame in Hrun as (_ & Hframe & _ & _).
    rewrite visited_all, Hnone in Hframe.
    apply map_eq. intros ref. apply Hframe. apply not_elem_of_nil.
Qed.

Section ReconcilerFailure.

Variable readResult : option TransactGetItemsOutput.

Lemma populateFrom_step_other n i index responses (heap : Heap) ref object :
  responses !! i = Some ref -> heap !! ref = Some object ->
  resp_operation object <> op_read ->
  populateFrom readResult (S n) i index responses heap =
  populateFrom readResult n (S i) index responses heap.
Proof.
  intros Hi Href Hop. simpl. unfold mbind, Eff_bind, entryAt.
  rewrite Hi, Href. by destruct (decide (resp_operation object = op_read)).
Qed.

Lemma populateFrom_step_read n i index responses (heap : Heap) ref object raw :
  responses !! i = Some ref -> heap !! ref = Some object ->
  resp_operation object = op_read ->
  rawResult readResult index = Some raw ->
  populateFrom readResult (S n) i index responses heap =
  populateFrom readResult n (S i) (S index) responses
    (<[ref := reconciled object raw]> heap).
Proof.
  intros Hi Href Hop Hraw. simpl. unfold mbind, Eff_bind, entryAt.
  rewrite Hi, Href.
  destruct (decide (resp_operation object = op_read)); [|done].
  destruct (readItem_rawResult readResult index heap) as [-> | [_ Hcount]].
  - rewrite Hraw. unfold mret, Eff_ret. simpl.
    pose proof (set_resource_lastModified ref object raw heap Href) as Hset.
    unfold setLastModified, setResource in *. simpl in Hset. rewrite Hset.
    by rewrite list_insert_id.
  - apply rawResult_in_range in Hraw. lia.
Qed.

Lemma populateFrom_step_missing n i index responses (heap : Heap) ref object :
  responses !! i = Some ref -> heap !! ref = Some object ->
  resp_operation object = op_read ->
  rawResult readResult index = None ->
  responsesPresent readResult ->
  populateFrom readResult (S n) i index responses heap =
  (Thrown unfulfilledRead, heap).
Proof.
  intros Hi Href Hop Hraw Hpresent. simpl. unfold mbind, Eff_bind, entryAt.
  rewrite Hi, Href.
  destruct (decide (resp_operation object = op_read)); [|done].
  unfold readItem, rawResult in *.
  destruct readResult as [output|]; simpl in *; [|done].
  destruct (Hpresent output eq_refl) as [items Hitems].
  rewrite Hitems in *. simpl in *. unfold mret, Eff_ret.
  assert (items !! index ≫= Item = None) as -> by exact Hraw.
  done.
Qed.

Lemma populateFrom_step_no_responses n i index responses (heap : Heap)
    ref object output :
  responses !! i = Some ref -> heap !! ref = Some object ->
  resp_operation object = op_read ->
  readResult = Some output -> Responses output = None ->
  populateFrom readResult (S n) i index responses heap =
  (Thrown TypeError, heap).
Proof.
  intros Hi Href Hop Hout Hnone. simpl. unfold mbind, Eff_bind, entryAt.
  rewrite Hi, Href.
  destruct (decide (resp_operation object = op_read)); [|done].
  unfold readItem. by rewrite Hout, Hnone.
Qed.

Lemma is_Some_insert (heap : Heap) ref object refs :
  Forall (fun ref' => is_Some (heap !! ref')) refs ->
  Forall (fun ref' => is_Some (<[ref := object]> heap !! ref')) refs.
Proof.
  intros Hall. eapply Forall_impl; [exact Hall|]. intros ref' Hsome. simpl.
  destruct (decide (ref = ref')) as [<-|Hne];
    [by rewrite lookup_insert_eq|by rewrite lookup_insert_ne].
Qed.

Lemma populateFrom_fails_at n :
  forall i index responses (heap : Heap) k,
    (i + n <= length responses)%nat ->
    Forall (fun ref => is_Some (heap !! ref)) (take n (drop i responses)) ->
    (k < length (readEntries heap (take n (drop i responses))))%nat ->
    (forall N, (N < k)%nat -> is_Some (rawResult readResult (index + N))) ->
    rawResult readResult (index + k) = None ->
    responsesPresent readResult ->
    exists heap',
      populateFrom readResult n i index responses heap
        = (Thrown unfulfilledRead, heap') /\
      assignInOrder readResult index
        (take k (readEntries heap (take n (drop i responses)))) heap
        = Some heap'.
Proof.
  induction n as [|n IH];
    intros i index responses heap k Hlen Hobjects Hk Hbefore Hat Hpresent.
  - rewrite take_0 in Hk. simpl in Hk. lia.
  - destruct (lookup_lt_is_Some_2 responses i) as [ref Hi]; [lia|].
    rewrite (visited_cons _ _ _ _ Hi) in Hobjects, Hk |- *.
    apply Forall_cons in Hobjects as [[object Href] Hobjects].
    destruct (decide (resp_operation object = op_read)) as [Hop|Hop].
    + rewrite (readEntries_cons_read _ _ _ _ Href Hop) in Hk |- *.
      destruct k as [|k].
      * rewrite Nat.add_0_r in Hat. exists heap.
        by rewrite (populateFrom_step_missing _ _ _ _ _ _ _ Hi Href Hop Hat).
      * destruct (Hbefore 0%nat) as [raw Hraw]; [lia|].
        rewrite Nat.add_0_r in Hraw.
        rewrite (populateFrom_step_read _ _ _ _ _ _ _ _ Hi Href Hop Hraw).
        simpl. rewrite Hraw. simpl.
        rewrite (alter_reconciled _ _ object) by done.
        rewrite <- (readEntries_insert heap ref object (reconciled object raw))
          by done.
        apply IH; try done.
        -- lia.
        -- by apply is_Some_insert.
        -- rewrite (readEntries_insert _ _ object) by done. simpl in Hk. lia.
        -- intros N HN.
           replace (S index + N)%nat with (index + S N)%nat by lia.
           apply Hbefore. lia.
        -- by replace (S index + k)%nat with (index + S k)%nat by lia.
    + rewrite (readEntries_cons_other _ _ _ _ Href Hop) in Hk |- *.
      rewrite (populateFrom_step_other _ _ _ _ _ _ _ Hi Href Hop).
      apply IH; try done. lia.
Qed.

Lemma populateFrom_no_responses n output :
  readResult = Some output -> Responses output = None ->
  forall i index responses (heap : Heap),
    (i + n <= length responses)%nat ->
    Forall (fun ref => is_Some (heap !! ref)) (take n (drop i responses)) ->
    readEntries heap (take n (drop i responses)) <> [] ->
    populateFrom readResult n i index responses heap = (Thrown TypeError, heap).
Proof.
  intros Hout Hnone.
  induction n as [|n IH]; intros i index responses heap Hlen Hobjects Hreads.
  - by rewrite take_0 in Hreads.
  - destruct (lookup_lt_is_Some_2 responses i) as [ref Hi]; [lia|].
    rewrite (visited_cons _ _ _ _ Hi) in Hobjects, Hreads.
    apply Forall_cons in Hobjects as [[object Href] Hobjects].
    destruct (decide (resp_operation object = op_read)) as [Hop|Hop].
    + by eapply populateFrom_step_no_responses.
    + rewrite (readEntries_cons_other _ _ _ _ Href Hop) in Hreads.
      rewrite (populateFrom_step_other _ _ _ _ _ _ _ Hi Href Hop).
      apply IH; [lia|done|done].
Qed.

(** X12: when the read entry number k is the first without a raw result, the
    reconciler throws the error "Failed to fulfill all READ requests", and it
    leaves the objects as the first k assignments made them: the read
    entries before the failing one have been written, they are not
    restored. (Every entry is an object, and the read result is undefined or
    has its [Responses].) *)
Theorem reconciler_fails_midway responses (heap : Heap) k :
  Forall (fun ref => is_Some (heap !! ref)) responses ->
  (k < length (readEntries heap responses))%nat ->
  (forall N, (N < k)%nat -> is_Some (rawResult readResult N)) ->
  rawResult readResult k = None ->
  responsesPresent readResult ->
  exists heap',
    populateBundleEntryResponseWithReadResult responses readResult heap
      = (Thrown unfulfilledRead, heap') /\
    assignInOrder readResult 0 (take k (readEntries heap responses)) heap
      = Some heap'.
Proof.
  intros Hobjects Hk Hbefore Hat Hpresent.
  unfold populateBundleEntryResponseWithReadResult.
  destruct (populateFrom_fails_at (length responses) 0 0 responses heap k)
    as (heap' & Hrun & Hassign); try done.
  - by rewrite visited_all.
  - by rewrite visited_all.
  - rewrite visited_all in Hassign. by exists heap'.
Qed.

(** X13: when the read result is there but has no [Responses], and the
    sequence has a read entry, the reconciler throws a [TypeError], not the
    error of an unfulfilled read, and leaves every object as it was. (Every
    entry is an object.) *)
Theorem reconciler_without_responses responses (heap : Heap) output :
  readResult = Some output -> Responses output = None ->
  Forall (fun ref => is_Some (heap !! ref)) responses ->
  readEntries heap responses <> [] ->
  populateBundleEntryResponseWithReadResult responses readResult heap
    = (Thrown TypeError, heap).
Proof.
  intros Hout Hnone Hobjects Hreads.
  unfold populateBundleEntryResponseWithReadResult.
  eapply populateFrom_no_responses; try done; by rewrite visited_all.
Qed.

End ReconcilerFailure.

(** ** From staging to reconciliation *)

Lemma staged_read_count m t requests w st w' :
  generateStagingRequests requests m t w = (Returned st, w') ->
  length (filter (fun response => resp_operation response = op_read)
            (newStagingResponses st)) = length (readRequests st).
Proof.
  revert requests w st w'.
  apply (generateStagingRequests_invariant m t (fun walked acc =>
    length (filter (fun response => resp_operation response = op_read)
              (newStagingResponses acc)) = length (readRequests acc)));
    [done|].
  intros walked acc request w acc' w' IH Hstep.
  stage_cases Hstep; rewrite ?filter_snoc; simpl;
    rewrite ?length_app, ?app_nil_r; simpl; lia.
Qed.

Lemma readEntries_of_objects (heap : Heap) refs objects :
  Forall2 (fun ref object => heap !! ref = Some object) refs objects ->
  length (readEntries heap refs) =
  length (filter (fun response => resp_operation response = op_read) objects).
Proof.
  induction 1 as [|ref object refs objects Href _ IH]; [done|].
  destruct (decide (resp_operation object = op_read)) as [Hop|Hop].
  - rewrite (readEntries_cons_read _ _ _ _ Href Hop).
    rewrite filter_cons_True by done. simpl. by rewrite IH.
  - rewrite (readEntries_cons_other _ _ _ _ Href Hop).
    by rewrite filter_cons_False.
Qed.

Lemma objects_are_there (heap : Heap) refs objects :
  Forall2 (fun ref object => heap !! ref = Some object) refs objects ->
  Forall (fun ref => is_Some (heap !! ref)) refs.
Proof. induction 1; constructor; eauto. Qed.

Lemma heapOf_objects responses :
  Forall2 (fun ref object => heapOf responses !! ref = Some object)
    (referencesOf responses) responses.
Proof.
  apply Forall2_same_length_lookup_2; [apply length_seq|].
  intros i ref object Hi Hobject.
  apply lookup_seq in Hi as [-> _]. unfold heapOf.
  by rewrite lookup_map_seq_0.
Qed.

Lemma heapOf_read_entry responses i response :
  responses !! i = Some response ->
  resp_operation response = op_read ->
  readEntries (heapOf responses) (referencesOf responses)
    !! readsBefore responses i = Some i.
Proof.
  intros Hi Hop.
  assert (referencesOf responses !! i = Some i) as Href.
  { apply lookup_seq. split; [done|]. by eapply lookup_lt_Some. }
  pose proof (heapOf_objects responses) as Hall.
  rewrite <- (take_drop_middle _ _ _ Href). unfold readEntries.
  rewrite filter_app.
  assert (length (filter (isReadEntry (heapOf responses))
                    (take i (referencesOf responses)))
          = readsBefore responses i) as <-.
  { apply (readEntries_of_objects (heapOf responses)). by apply Forall2_take. }
  rewrite filter_cons_True.
  - apply list_lookup_middle. done.
  - unfold isReadEntry, heapOf. by rewrite lookup_map_seq_0, Hi; simpl; f_equal.
Qed.

(** X14: when the store gives a raw result for every read request that
    [generateStagingRequests] returned, reconciling the responses of that
    call returns: every response that is not a read is as staged, and every
    read placeholder holds the raw result whose number is the number of read
    placeholders before it, that is, the result of its own read request. *)
Theorem staged_reads_reconcile requests m t w st w' readResult :
  generateStagingRequests requests m t w = (Returned st, w') ->
  (forall N, (N < length (readRequests st))%nat ->
             is_Some (rawResult readResult N)) ->
  exists heap',
    populateBundleEntryResponseWithReadResult
      (referencesOf (newStagingResponses st)) readResult
      (heapOf (newStagingResponses st))
      = (Returned (referencesOf (newStagingResponses st)), heap') /\
    (forall i response,
        newStagingResponses st !! i = Some response ->
        resp_operation response <> op_read ->
        heap' !! i = Some response) /\
    (forall i response,
        newStagingResponses st !! i = Some response ->
        resp_operation response = op_read ->
        exists raw,
          rawResult readResult (readsBefore (newStagingResponses st) i)
            = Some raw /\
          heap' !! i = Some (reconciled response raw)).
Proof.
  intros Hstaged Hraws.
  set (responses := newStagingResponses st) in *.
  pose proof (heapOf_objects responses) as Hall.
  assert (length (readEntries (heapOf responses) (referencesOf responses))
          = length (readRequests st)) as Hcount.
  { rewrite (readEntries_of_objects _ _ _ Hall).
    exact (staged_read_count _ _ _ _ _ _ Hstaged). }
  unfold populateBundleEntryResponseWithReadResult.
  destruct (populateFrom_returns readResult
              (length (referencesOf responses)) 0 0
              (referencesOf responses) (heapOf responses))
    as [heap' Hrun].
  - lia.
  - rewrite visited_all. exact (objects_are_there _ _ _ Hall).
  - rewrite visited_all, Hcount. exact Hraws.
  - exists heap'. split; [exact Hrun|]. split.
    + intros i response Hi Hop.
      apply populateFrom_frame in Hrun as (_ & Hframe & _ & _).
      rewrite visited_all in Hframe. rewrite Hframe.
      * unfold heapOf. by rewrite lookup_map_seq_0.
      * unfold readEntries. intros [Hread _]%list_elem_of_filter.
        unfold isReadEntry, heapOf in Hread.
        rewrite lookup_map_seq_0, Hi in Hread. simpl in Hread. congruence.
    + intros i response Hi Hop.
      destruct (populateFrom_results readResult _ _ _ _ _ _ _ Hrun)
        with (k := readsBefore responses i) (ref := i)
        as (raw & object & Hraw & Hobject & Hfinal).
      * rewrite visited_all. unfold readEntries.
        apply NoDup_filter, NoDup_seq.
      * rewrite visited_all. by eapply heapOf_read_entry.
      * exists raw. split; [exact Hraw|].
        unfold heapOf in Hobject. rewrite lookup_map_seq_0, Hi in Hobject.
        by injection Hobject as <-.
Qed.

(** ** Reconciling twice *)

Section ReconcilerAgain.

Variable readResult : option TransactGetItemsOutput.

Lemma assignInOrder_frame reads :
  forall index (heap heap' : Heap),
    assignInOrder readResult index reads heap = Some heap' ->
    forall ref, ref ∉ reads -> heap' !! ref = heap !! ref.
Proof.
  induction reads as [|r reads IH]; intros index heap heap' Hrun ref Hnot.
  - simpl in Hrun. by injection Hrun as <-.
  - simpl in Hrun.
    destruct (rawResult readResult index) as [raw|]; [|discriminate].
    simpl in Hrun. apply not_elem_of_cons in Hnot as [Hne Hnot].
    rewrite (IH _ _ _ Hrun ref Hnot). by rewrite lookup_alter_ne.
Qed.

Lemma assignInOrder_raws reads :
  forall index (heap heap' : Heap),
    assignInOrder readResult index reads heap = Some heap' ->
    forall N, (N < length reads)%nat ->
              is_Some (rawResult readResult (index + N)).
Proof.
  induction reads as [|r reads IH]; intros index heap heap' Hrun N HN;
    [simpl in HN; lia|].
  simpl in Hrun.
  destruct (rawResult readResult index) as [raw|] eqn:Hraw; [|discriminate].
  simpl in Hrun. destruct N as [|N].
  - rewrite Nat.add_0_r, Hraw. by eexists.
  - replace (index + S N)%nat with (S index + N)%nat by lia.
    eapply IH; [exact Hrun|]. simpl in HN. lia.
Qed.

Lemma reconciled_sameButPayload object object' raw :
  sameButPayload object object' ->
  reconciled object' raw = reconciled object raw.
Proof.
  intros (Hid & Hvid & Hop & Hty). unfold reconciled.
  by rewrite Hid, Hvid, Hop, Hty.
Qed.

(** Two runs of the same assignments from heaps whose objects differ at most
    in payload and timestamp end with the same objects at the entries
    assigned. *)
Lemma assignInOrder_twice reads :
  forall index (h g h1 g1 : Heap),
    assignInOrder readResult index reads h = Some h1 ->
    assignInOrder readResult index reads g = Some g1 ->
    forall ref,
      option_Forall2 sameButPayload (h !! ref) (g !! ref) ->
      option_Forall2 sameButPayload (h1 !! ref) (g1 !! ref) /\
      (ref ∈ reads -> g1 !! ref = h1 !! ref).
Proof.
  induction reads as [|r reads IH]; intros index h g h1 g1 Hh Hg ref Hrel.
  - simpl in Hh, Hg. injection Hh as <-. injection Hg as <-.
    split; [done|]. by intros ?%elem_of_nil.
  - simpl in Hh, Hg.
    destruct (rawResult readResult index) as [raw|]; [|discriminate].
    simpl in Hh, Hg.
    assert (option_Forall2 sameButPayload
              (alter (fun object => reconciled object raw) r h !! ref)
              (alter (fun object => reconciled object raw) r g !! ref))
      as Hrel'.
    { destruct (decide (r = ref)) as [->|Hne].
      - rewrite !lookup_alter_eq.
        destruct Hrel as [o o' Hso|]; constructor.
        destruct Hso as (? & ? & ? & ?). by repeat split.
      - by rewrite !lookup_alter_ne. }
    destruct (IH _ _ _ _ _ Hh Hg ref Hrel') as [Hfinal Hin].
    split; [exact Hfinal|]. intros Hmem.
    destruct (decide (ref ∈ reads)) as [Hrest|Hrest]; [by apply Hin|].
    apply elem_of_cons in Hmem as [->|?]; [|done].
    rewrite (assignInOrder_frame _ _ _ _ Hh r Hrest).
    rewrite (assignInOrder_frame _ _ _ _ Hg r Hrest).
    rewrite !lookup_alter_eq.
    destruct Hrel as [o o' Hso|]; [|done]. simpl.
    by rewrite (reconciled_sameButPayload _ _ _ Hso).
Qed.

Lemma populateFrom_objects n :
  forall i index responses (heap : Heap) responses' heap',
    populateFrom readResult n i index responses heap
      = (Returned responses', heap') ->
    Forall (fun ref => is_Some (heap !! ref)) (take n (drop i responses)).
Proof.
  induction n as [|n IH]; intros i index responses heap responses' heap' Hrun.
  - rewrite take_0. constructor.
  - destruct (populateFrom_iteration readResult n i index responses heap)
      as [e _|ref object Hi Href Hop|ref object e Hi Href Hop Hraw
          |ref object raw Hi Href Hop Hraw]; try discriminate Hrun;
      rewrite (visited_cons _ _ _ _ Hi); constructor; eauto.
    apply IH in Hrun. eapply Forall_impl; [exact Hrun|].
    intros ref' Hsome. simpl in Hsome.
    destruct (decide (ref = ref')) as [<-|Hne]; [by eexists|].
    by rewrite lookup_insert_ne in Hsome.
Qed.

Lemma readEntries_sameButPayload (heap heap' : Heap) responses :
  (forall ref, option_Forall2 sameButPayload (heap !! ref) (heap' !! ref)) ->
  readEntries heap' responses = readEntries heap responses.
Proof.
  intros Hrel. unfold readEntries. apply list_filter_iff. intros ref.
  unfold isReadEntry.
  destruct (Hrel ref) as [o o' (_ & _ & Hop & _)|]; simpl; [|done].
  by rewrite Hop.
Qed.

(** X15: reconciling a second time with the same read result changes
    nothing: when [populateBundleEntryResponseWithReadResult] has returned,
    calling it again on what it returned, with the same read result, returns
    the same sequence and leaves every object as the first call left it. *)
Theorem reconciler_idempotent responses (heap : Heap) responses' heap' :
  populateBundleEntryResponseWithReadResult responses readResult heap
    = (Returned responses', heap') ->
  populateBundleEntryResponseWithReadResult responses' readResult heap'
    = (Returned responses', heap').
Proof.
  unfold populateBundleEntryResponseWithReadResult. intros Hrun.
  pose proof (populateFrom_assigns _ _ _ _ _ _ _ _ Hrun) as Hassign.
  pose proof (populateFrom_objects _ _ _ _ _ _ _ Hrun) as Hobjects.
  pose proof (populateFrom_frame _ _ _ _ _ _ _ _ Hrun)
    as (-> & _ & Hsame & Hnone).
  rewrite visited_all in Hassign, Hobjects.
  assert (forall ref,
             option_Forall2 sameButPayload (heap !! ref) (heap' !! ref))
    as Hrel.
  { intros ref. destruct (heap !! ref) as [object|] eqn:Href.
    - destruct (Hsame _ _ Href) as (object' & -> & Hso). by constructor.
    - rewrite (Hnone _ Href). constructor. }
  pose proof (readEntries_sameButPayload _ _ responses Hrel) as Hreads.
  destruct (populateFrom_returns readResult (length responses) 0 0
              responses heap') as [heap'' Hagain].
  - lia.
  - rewrite visited_all. eapply Forall_impl; [exact Hobjects|].
    intros ref [object Href]. simpl.
    destruct (Hsame _ _ Href) as (object' & -> & _). by eexists.
  - rewrite visited_all, Hreads.
    exact (assignInOrder_raws _ _ _ _ Hassign).
  - rewrite Hagain. f_equal.
    pose proof (populateFrom_assigns _ _ _ _ _ _ _ _ Hagain) as Hassign'.
    rewrite visited_all, Hreads in Hassign'.
    apply map_eq. intros ref.
    destruct (decide (ref ∈ readEntries heap responses)) as [Hin|Hout].
    + exact (proj2 (assignInOrder_twice _ _ _ _ _ _ Hassign Hassign'
                      ref (Hrel ref)) Hin).
    + exact (assignInOrder_frame _ _ _ _ Hassign' ref Hout).
Qed.

End ReconcilerAgain.

(** ** Concrete runs of the further properties *)

Lemma staging_identifies_creates_witness :
  exists st w',
    generateStagingRequests batch0 {[ "p1" := 2 ]} None world0
      = (Returned st, w') /\
    map resp_id
      (filter (fun response => resp_operation response = op_create)
         (newStagingResponses st)) =
      ["8cafa46d-08b4-4ee4-b51b-803e20ae8126"; "c2"] /\
    uuidsDrawn w' = 2%nat.
Proof.
  eexists _, _. split; [vm_compute; reflexivity|].
  edestruct (staging_identifies_creates {[ "p1" := 2 ]} None batch0 world0)
    as (Hresponses & _ & Hdrawn); [vm_compute; reflexivity|].
  split; [exact Hresponses|exact Hdrawn].
Defined.

Lemma staging_creates_distinct_witness :
  exists st w',
    generateStagingRequests
      [requestFor op_create ""; requestFor op_create ""] ∅ None world3
      = (Returned st, w') /\
    NoDup (map resp_id
             (filter (fun response => resp_operation response = op_create)
                (newStagingResponses st))).
Proof.
  eexists _, _. split; [vm_compute; reflexivity|].
  refine (staging_creates_distinct ∅ None
            [requestFor op_create ""; requestFor op_create ""] world3
            _ _ _ _ _).
  - intros a b Heq. simpl in Heq.
    apply (f_equal integerPrefix) in Heq.
    rewrite !integerPrefix_decimal in Heq. injection Heq as Heq. lia.
  - repeat (apply Forall_cons_2 || apply Forall_nil_2); reflexivity.
  - vm_compute; reflexivity.
Defined.

Lemma staging_delete_transitions_witness :
  exists st w',
    generateStagingRequests batch2 {[ "p1" := 2 ]} (Some "tenant1") world0
      = (Returned st, w') /\
    Forall2 (fun request param =>
               getProperty {[ "p1" := 2 ]} (req_id request) <> undefined /\
               param =
                 buildUpdateDocumentStatusParam LOCKED PENDING_DELETE
                   (req_id request)
                   (getProperty {[ "p1" := 2 ]} (req_id request))
                   (req_resourceType request) (Some "tenant1"))
      [requestFor op_delete "p1"; requestFor op_delete "constructor"]
      (deleteRequests st) /\
    map usp_vid (deleteRequests st) = [number 2; inherited "constructor"].
Proof.
  eexists _, _. split; [vm_compute; reflexivity|].
  edestruct (staging_delete_transitions {[ "p1" := 2 ]} (Some "tenant1")
               batch2 world0) as [Hparams _]; [vm_compute; reflexivity|].
  split; [exact Hparams|reflexivity].
Defined.

Lemma staging_read_placeholders_witness :
  exists st w',
    generateStagingRequests batch2 {[ "p1" := 2 ]} (Some "tenant1") world0
      = (Returned st, w') /\
    Forall2 (fun request response =>
               resp_id response = req_id request /\
               resp_vid response =
                 valueToString
                   (getProperty {[ "p1" := 2 ]} (req_id request)) /\
               resp_resourceType response = req_resourceType request /\
               resp_resource response = emptyObject /\
               resp_lastModified response = "")
      [requestFor op_read "valueOf"; requestFor op_read "p1"]
      (filter (fun response => resp_operation response = op_read)
         (newStagingResponses st)) /\
    map resp_vid
      (filter (fun response => resp_operation response = op_read)
         (newStagingResponses st)) =
      ["function valueOf() { [native code] }"; "2"].
Proof.
  eexists _, _. split; [vm_compute; reflexivity|].
  edestruct (staging_read_placeholders {[ "p1" := 2 ]} (Some "tenant1")
               batch2 world0) as [_ Hresponses]; [vm_compute; reflexivity|].
  split; [exact Hresponses|reflexivity].
Defined.

Lemma staging_responses_match_payload_witness :
  exists st w',
    generateStagingRequests batch0 {[ "p1" := 2 ]} None world0
      = (Returned st, w') /\
    Forall2 answersStagedRequest batch0
      (filter (fun response => stagesVersion (resp_operation response) = true)
         (newStagingResponses st)).
Proof.
  eexists _, _. split; [vm_compute; reflexivity|].
  refine (staging_responses_match_payload {[ "p1" := 2 ]} None batch0
            world0 _ _ _).
  vm_compute; reflexivity.
Defined.

Lemma rollback_compensates_every_put_witness :
  exists st w',
    generateStagingRequests batch0 {[ "p1" := 2 ]} None world0
      = (Returned st, w') /\
    length (transactionRequests
              (generateRollbackRequests (newStagingResponses st) None))
      = (length (createRequests st) + length (updateRequests st))%nat.
Proof.
  eexists _, _. split; [vm_compute; reflexivity|].
  refine (rollback_compensates_every_put batch0 {[ "p1" := 2 ]} None
            world0 _ _ None _).
  vm_compute; reflexivity.
Defined.

Lemma rollback_after_reconciliation_witness :
  exists heap',
    populateBundleEntryResponseWithReadResult responses0 readResult0 heap0
      = (Returned responses0, heap') /\
    generateRollbackRequests (objectsAt heap' responses0) (Some "tenant1") =
    generateRollbackRequests (objectsAt heap0 responses0) (Some "tenant1").
Proof.
  eexists. split; [vm_compute; reflexivity|].
  refine (rollback_after_reconciliation responses0 readResult0 heap0
            responses0 _ (Some "tenant1") _).
  vm_compute; reflexivity.
Defined.

Lemma reconciler_without_reads_witness :
  populateBundleEntryResponseWithReadResult [10; 12]%nat None heap0
    = (Returned [10; 12]%nat, heap0).
Proof.
  apply reconciler_without_reads.
  repeat (apply Forall_cons_2 || apply Forall_nil_2);
    eexists; (split; [vm_compute; reflexivity|discriminate]).
Defined.

Lemma reconciler_fails_midway_witness :
  exists heap',
    populateBundleEntryResponseWithReadResult responses0 readResult1 heap0
      = (Thrown unfulfilledRead, heap') /\
    assignInOrder readResult1 0 [11%nat] heap0 = Some heap'.
Proof.
  refine (reconciler_fails_midway readResult1 responses0 heap0 1 _ _ _ _ _).
  - apply (bool_decide_unpack _). vm_compute. exact I.
  - vm_compute. lia.
  - intros N HN. assert (N = 0%nat) as -> by lia.
    apply (bool_decide_unpack _). vm_compute. exact I.
  - reflexivity.
  - intros output Hout. injection Hout as <-. simpl. by eexists.
Defined.

Lemma reconciler_without_responses_witness :
  populateBundleEntryResponseWithReadResult responses0 readResult2 heap0
    = (Thrown TypeError, heap0).
Proof.
  refine (reconciler_without_responses readResult2 responses0 heap0
            {| Responses := None |} eq_refl eq_refl _ _).
  - apply (bool_decide_unpack _). vm_compute. exact I.
  - vm_compute. discriminate.
Defined.

Lemma staged_reads_reconcile_witness :
  exists st w',
    generateStagingRequests batch1 {[ "p1" := 2 ]} None world0
      = (Returned st, w') /\
    exists heap',
      populateBundleEntryResponseWithReadResult
        (referencesOf (newStagingResponses st)) readResult1
        (heapOf (newStagingResponses st))
        = (Returned (referencesOf (newStagingResponses st)), heap') /\
      (forall i response,
          newStagingResponses st !! i = Some response ->
          resp_operation response <> op_read ->
          heap' !! i = Some response) /\
      (forall i response,
          newStagingResponses st !! i = Some response ->
          resp_operation response = op_read ->
          exists raw,
            rawResult readResult1 (readsBefore (newStagingResponses st) i)
              = Some raw /\
            heap' !! i = Some (reconciled response raw)).
Proof.
  eexists _, _. split; [vm_compute; reflexivity|].
  refine (staged_reads_reconcile batch1 {[ "p1" := 2 ]} None world0 _ _
            readResult1 _ _).
  - vm_compute; reflexivity.
  - intros N HN. assert (N = 0%nat) as -> by (vm_compute in HN; lia).
    apply (bool_decide_unpack _). vm_compute. exact I.
Defined.

Lemma reconciler_idempotent_witness :
  exists heap',
    populateBundleEntryResponseWithReadResult responses0 readResult0 heap0
      = (Returned responses0, heap') /\
    populateBundleEntryResponseWithReadResult responses0 readResult0 heap'
      = (Returned responses0, heap').
Proof.
  eexists. split; [vm_compute; reflexivity|].
  apply (reconciler_idempotent readResult0 responses0 heap0).
  vm_compute; reflexivity.
Defined.
